(** * redis_tasks: the registries of [rq/registries.py]

    A shallow embedding of the three registries (expiring task registry,
    worker liveness registry, queue registry) over a model of the Redis
    commands they issue, followed by the properties of the registries.

    Conventions.
    - Timestamps ([connection.ftime()], sorted-set scores, the two timeouts
      of [settings]) are integers: ticks of the server clock.  Only their
      order and their differences are used by the registries.
    - Member names are byte strings.  [decode_list] turns the replies of the
      server into Python strings; UTF-8 keeps the order of code points, so it
      is the identity on this representation.
    - A key holds a value of the kind the registries write there, hence one
      map per kind of value.  An aggregate that becomes empty is dropped from
      its map, as the server drops the key. *)

From Stdlib Require Import Ascii.
From stdpp Require Import gmap strings list sorting pretty.

Local Open Scope Z_scope.

(** ** Exceptions and outcomes *)

Inductive exn : Type :=
| NoSuchWorkerError
| TypeError
| AttributeError.

Inductive outcome (A : Type) : Type :=
| Return (a : A)
| Raise (e : exn).
Arguments Return {A} a.
Arguments Raise {A} e.

(** ** Configuration ([conf.settings]) *)

Record Settings : Type := {
  EXPIRING_REGISTRIES_TTL : Z;
  WORKER_HEARTBEAT_TIMEOUT : Z;
  REDIS_PREFIX : string
}.

(** [conf.RedisKey]: the name of a key under the configured prefix. *)
Definition RedisKey (settings : Settings) (name : string) : string :=
  REDIS_PREFIX settings +:+ name.

(** ** Score ranges *)

(** An end of a score range: ['-inf'], a number, ['+inf']. *)
Inductive bound : Type :=
| NegInf
| Score (z : Z)
| PosInf.

Definition above (lo : bound) (s : Z) : bool :=
  match lo with
  | NegInf => true
  | Score z => bool_decide (z ≤ s)
  | PosInf => false
  end.

Definition below (s : Z) (hi : bound) : bool :=
  match hi with
  | NegInf => false
  | Score z => bool_decide (s ≤ z)
  | PosInf => true
  end.

Definition in_range (lo hi : bound) (s : Z) : bool := above lo s && below s hi.

(** ** Sorted sets *)

Module ZSet.

(** The order of a sorted set: by score, members of one score by name. *)
Definition entry_le (e1 e2 : string * Z) : Prop :=
  e1.2 < e2.2 ∨ (e1.2 = e2.2 ∧ String.le e1.1 e2.1).

#[global] Instance entry_le_dec : RelDecision entry_le.
Proof. intros e1 e2. unfold entry_le. apply _. Defined.

(** All entries, lowest score first. *)
Definition entries (z : gmap string Z) : list (string * Z) :=
  merge_sort entry_le (map_to_list z).

(** [ZADD key member score], with the flags [XX] (update only) and [CH]
    (reply with the number of entries changed, not of entries added).  An
    entry written with the score it already has is not changed. *)
Definition zadd (member : string) (s : Z) (xx ch : bool)
    (z : gmap string Z) : gmap string Z * Z :=
  match z !! member with
  | Some old =>
      if bool_decide (old = s) then (z, 0)
      else (<[member := s]> z, if ch then 1 else 0)
  | None =>
      if xx then (z, 0) else (<[member := s]> z, 1)
  end.

Definition zrem (member : string) (z : gmap string Z) : gmap string Z * Z :=
  match z !! member with
  | Some _ => (delete member z, 1)
  | None => (z, 0)
  end.

(** [ZRANGE key start stop]: by rank, negative ranks count from the end. *)
Definition zrange (start stop : Z) (z : gmap string Z) : list string :=
  let l := entries z in
  let len := Z.of_nat (length l) in
  let start := if bool_decide (start < 0) then Z.max (len + start) 0 else start in
  let stop := if bool_decide (stop < 0) then len + stop else stop in
  let stop := Z.min stop (len - 1) in
  if bool_decide (start ≤ stop)
  then (take (Z.to_nat (stop - start + 1)) (drop (Z.to_nat start) l)).*1
  else [].

Definition zrangebyscore (lo hi : bound) (z : gmap string Z) : list string :=
  (filter (λ e, in_range lo hi e.2) (entries z)).*1.

Definition zremrangebyscore (lo hi : bound)
    (z : gmap string Z) : gmap string Z * Z :=
  let kept := filter (λ e, ¬ in_range lo hi e.2) z in
  (kept, Z.of_nat (size z) - Z.of_nat (size kept)).

End ZSet.

(** ** The store *)

Inductive Status : Type := queued | running | finished | failed.

(** The part of a task record the registries' collaborators rely on. *)
Record TaskRecord : Type := {
  status : Status;
  origin : string
}.

Record Store : Type := {
  zsets : gmap string (gmap string Z);
  sets : gmap string (gset string);
  lists : gmap string (list string);
  tasks : gmap string TaskRecord
}.

Definition zset_of (st : Store) (key : string) : gmap string Z :=
  default ∅ (zsets st !! key).

Definition set_of (st : Store) (key : string) : gset string :=
  default ∅ (sets st !! key).

Definition list_of (st : Store) (key : string) : list string :=
  default [] (lists st !! key).

(** Writing back the value a key already has leaves the store as it is. *)
Definition put_zset (key : string) (z : gmap string Z) (st : Store) : Store :=
  if decide (zset_of st key = z) then st else
  {| zsets := if decide (z = ∅) then delete key (zsets st) else <[key := z]> (zsets st);
     sets := sets st; lists := lists st; tasks := tasks st |}.

Definition put_set (key : string) (s : gset string) (st : Store) : Store :=
  if decide (set_of st key = s) then st else
  {| zsets := zsets st;
     sets := if decide (s = ∅) then delete key (sets st) else <[key := s]> (sets st);
     lists := lists st; tasks := tasks st |}.

Definition put_list (key : string) (l : list string) (st : Store) : Store :=
  if decide (list_of st key = l) then st else
  {| zsets := zsets st; sets := sets st;
     lists := if decide (l = []) then delete key (lists st) else <[key := l]> (lists st);
     tasks := tasks st |}.

Definition put_tasks (t : gmap string TaskRecord) (st : Store) : Store :=
  {| zsets := zsets st; sets := sets st; lists := lists st; tasks := t |}.

(** [LINDEX key index] on the list held at a key. *)
Definition lindex (l : list string) (index : Z) : option string :=
  if bool_decide (0 ≤ index) then l !! Z.to_nat index
  else if bool_decide (0 ≤ Z.of_nat (length l) + index)
       then l !! Z.to_nat (Z.of_nat (length l) + index)
       else None.

(** ** Calls that can change the store

    The writing commands of the server, and the calls into the task and
    worker modules.  A run of a registry method yields the calls it made, in
    order. *)

Inductive call : Type :=
| ZADD (key member : string) (s : Z) (xx ch : bool)
| ZREM (key member : string)
| ZREMRANGEBYSCORE (key : string) (lo hi : bound)
| SADD (key member : string)
| SREM (key member : string)
| TASK_DELETE_MANY (task_ids : list string)
| WORKER_DIED (worker_id : string).

(** Modelled from the spec: [Task.delete_many] of [rq/task.py], which is not
    part of the sources at hand: the records of the given ids are deleted for
    good. *)
Definition delete_records (task_ids : list string)
    (t : gmap string TaskRecord) : gmap string TaskRecord :=
  filter (λ kv, kv.1 ∉ task_ids) t.

(** Modelled from the spec: the key of a worker's running-task slot is the
    prefix [worker_task:] followed by the worker's id (the prefix is the one
    [get_running_task_ids] uses); the pending list of a queue is kept under
    [queue:] followed by its name. *)
Definition worker_task_key (settings : Settings) (worker_id : string) : string :=
  RedisKey settings "worker_task:" +:+ worker_id.
Definition queue_key (settings : Settings) (name : string) : string :=
  RedisKey settings ("queue:" +:+ name).

(** Modelled from the spec: the declare-died transition of [rq/worker.py],
    which is not part of the sources at hand.  The task in the worker's slot,
    if any, goes back to the front of the queue it came from with the status
    [queued]; the worker's liveness entry and its slot are deleted. *)
Definition worker_died (settings : Settings) (worker_id : string)
    (st : Store) : Store :=
  let slot := worker_task_key settings worker_id in
  let st :=
    match lindex (list_of st slot) 0 with
    | Some task_id =>
        match tasks st !! task_id with
        | Some r =>
            let q := queue_key settings (origin r) in
            put_tasks (<[task_id := {| status := queued; origin := origin r |}]> (tasks st))
              (put_list q (task_id :: list_of st q) st)
        | None => st
        end
    | None => st
    end in
  put_zset (RedisKey settings "workers")
    (ZSet.zrem worker_id (zset_of st (RedisKey settings "workers"))).1
    (put_list slot [] st).

(** The effect of one call and its reply. *)
Definition perform (settings : Settings) (c : call) (st : Store) : Store * Z :=
  match c with
  | ZADD key member s xx ch =>
      let '(z, n) := ZSet.zadd member s xx ch (zset_of st key) in (put_zset key z st, n)
  | ZREM key member =>
      let '(z, n) := ZSet.zrem member (zset_of st key) in (put_zset key z st, n)
  | ZREMRANGEBYSCORE key lo hi =>
      let '(z, n) := ZSet.zremrangebyscore lo hi (zset_of st key) in (put_zset key z st, n)
  | SADD key member =>
      let s := set_of st key in
      (put_set key ({[member]} ∪ s) st, if decide (member ∈ s) then 0 else 1)
  | SREM key member =>
      let s := set_of st key in
      (put_set key (s ∖ {[member]}) st, if decide (member ∈ s) then 1 else 0)
  | TASK_DELETE_MANY task_ids =>
      (put_tasks (delete_records task_ids (tasks st)) st, 0)
  | WORKER_DIED worker_id =>
      (worker_died settings worker_id st, 0)
  end.

(** ** Computations against the server

    A computation reads the server clock and the settings, changes the store,
    returns or raises, and yields the calls it made. *)

Record Env : Type := {
  settings : Settings;
  clock : Z
}.

Definition Redis (A : Type) : Type := Env → Store → outcome A * Store * list call.

#[global] Instance Redis_ret : MRet Redis := λ A a _ st, (Return a, st, []).

#[global] Instance Redis_bind : MBind Redis := λ A B f m env st,
  match m env st with
  | (Return a, st1, cs1) =>
      let '(r, st2, cs2) := f a env st1 in (r, st2, cs1 ++ cs2)
  | (Raise e, st1, cs1) => (Raise e, st1, cs1)
  end.

#[global] Instance Redis_fmap : FMap Redis := λ A B f m env st,
  match m env st with
  | (Return a, st1, cs1) => (Return (f a), st1, cs1)
  | (Raise e, st1, cs1) => (Raise e, st1, cs1)
  end.

Definition raise {A : Type} (e : exn) : Redis A := λ _ st, (Raise e, st, []).

Definition get_settings : Redis Settings := λ env st, (Return (settings env), st, []).

Definition read {A : Type} (f : Store → A) : Redis A := λ _ st, (Return (f st), st, []).

Definition issue (c : call) : Redis Z := λ env st,
  let '(st', n) := perform (settings env) c st in (Return n, st', [c]).

Fixpoint for_each {A : Type} (l : list A) (body : A → Redis unit) : Redis unit :=
  match l with
  | [] => mret ()
  | x :: l => body x;; for_each l body
  end.

(** [utils.decode_list]: see the conventions at the head of the file. *)
Definition decode_list (l : list string) : list string := l.

Module connection.
Definition ftime : Redis Z := λ env st, (Return (clock env), st, []).
Definition zadd (key member : string) (s : Z) (xx ch : bool) : Redis Z :=
  issue (ZADD key member s xx ch).
Definition zrange (key : string) (start stop : Z) : Redis (list string) :=
  read (λ st, ZSet.zrange start stop (zset_of st key)).
Definition zrangebyscore (key : string) (lo hi : bound) : Redis (list string) :=
  read (λ st, ZSet.zrangebyscore lo hi (zset_of st key)).
Definition zremrangebyscore (key : string) (lo hi : bound) : Redis Z :=
  issue (ZREMRANGEBYSCORE key lo hi).
Definition smembers (key : string) : Redis (list string) :=
  read (λ st, elements (set_of st key)).
End connection.

(** ** Atomic batches *)

Definition Pipeline : Type := list call.

(** The queued calls are performed in order, as one step. *)
Definition execute (p : Pipeline) : Redis unit :=
  for_each p (λ c, issue c;; mret ()).

(** Modelled from the spec: the decorator [utils.atomic_pipeline], which is
    not part of the sources at hand.  Given a batch, the method queues its
    writes on it and the caller commits; given none, the method opens a batch
    of its own and commits it before it returns. *)
Definition atomic_pipeline (method : Pipeline → Redis Pipeline)
    (pipeline : option Pipeline) : Redis Pipeline :=
  match pipeline with
  | Some p => method p
  | None => p ← method []; execute p;; mret []
  end.

(** ** Method lookup

    A class is known by the names of its methods and the number of
    positional arguments each takes besides [self].  Calling a name the class
    does not have raises [AttributeError]; calling a method with another
    number of positional arguments raises [TypeError]. *)

Definition resolve (methods : list (string * nat)) (name : string)
    (positional : nat) : Redis unit :=
  match (list_to_map methods : gmap string nat) !! name with
  | None => raise AttributeError
  | Some arity =>
      if bool_decide (positional = arity) then mret () else raise TypeError
  end.

(** ** Entities *)

Module Task.
Record t : Type := { id : string }.

(** [Task.delete_many]: one call, whose effect is [delete_records]. *)
Definition delete_many (task_ids : list string) : Redis unit :=
  issue (TASK_DELETE_MANY task_ids);; mret ().
End Task.

Module Queue.
Record t : Type := { name : string }.
End Queue.

Module Worker.
Record t : Type := { id : string }.

(** Modelled from the spec: [Worker.fetch] of [rq/worker.py] loads the
    record of the worker with the given id. *)
Definition fetch (worker_id : string) : Redis t :=
  mret {| id := worker_id |}.

(** [worker.died()]: one call, whose effect is [worker_died]. *)
Definition died (worker : t) : Redis unit :=
  issue (WORKER_DIED (id worker));; mret ().
End Worker.

(** ** ExpiringRegistry *)

Module ExpiringRegistry.
Record t : Type := { key : string }.

Definition __init__ (settings : Settings) (name : string) : t :=
  {| key := RedisKey settings (name +:+ "_tasks") |}.

Definition add (self : t) (task : Task.t) : option Pipeline → Redis Pipeline :=
  atomic_pipeline (λ pipeline,
    timestamp ← connection.ftime;
    mret (pipeline ++ [ZADD (key self) (Task.id task) timestamp false false])).

Definition get_task_ids (self : t) : Redis (list string) :=
  decode_list <$> connection.zrange (key self) 0 (-1).

Definition expire (self : t) : Redis unit :=
  timestamp ← connection.ftime;
  settings ← get_settings;
  let cutoff_time := timestamp - EXPIRING_REGISTRIES_TTL settings in
  expired_task_ids ← decode_list <$>
    connection.zrangebyscore (key self) (Score 0) (Score cutoff_time);
  match expired_task_ids with
  | _ :: _ =>
      connection.zremrangebyscore (key self) (Score 0) (Score cutoff_time);;
      Task.delete_many expired_task_ids
  | [] => mret ()
  end.
End ExpiringRegistry.

Definition finished_task_registry (settings : Settings) : ExpiringRegistry.t :=
  ExpiringRegistry.__init__ settings "finished".
Definition failed_task_registry (settings : Settings) : ExpiringRegistry.t :=
  ExpiringRegistry.__init__ settings "failed".

(** ** WorkerRegistry *)

Module WorkerRegistry.
Record t : Type := { key : string }.

Definition __init__ (settings : Settings) : t :=
  {| key := RedisKey settings "workers" |}.

Definition methods : list (string * nat) :=
  [("add", 1%nat); ("heartbeat", 1%nat); ("remove", 1%nat);
   ("get_worker_ids", 0%nat); ("get_running_task_ids", 0%nat);
   ("handle_died_workers", 0%nat); ("get_dead_ids", 0%nat)].

Definition add (self : t) (worker : Worker.t) : option Pipeline → Redis Pipeline :=
  atomic_pipeline (λ pipeline,
    timestamp ← connection.ftime;
    mret (pipeline ++ [ZADD (key self) (Worker.id worker) timestamp false false])).

Definition heartbeat (self : t) (worker : Worker.t) : Redis unit :=
  timestamp ← connection.ftime;
  updated ← connection.zadd (key self) (Worker.id worker) timestamp true true;
  if bool_decide (updated = 0) then raise NoSuchWorkerError else mret ().

Definition remove (self : t) (worker : Worker.t) : option Pipeline → Redis Pipeline :=
  atomic_pipeline (λ pipeline,
    mret (pipeline ++ [ZREM (key self) (Worker.id worker)])).

Definition get_worker_ids (self : t) : Redis (list string) :=
  decode_list <$> connection.zrangebyscore (key self) NegInf PosInf.

(** The script of [get_running_task_ids], run by the server in one step. *)
Definition lua (workers_key task_key_prefix : string) (st : Store) : list string :=
  let worker_ids := ZSet.zrange 0 (-1) (zset_of st workers_key) in
  foldl (λ task_ids worker_id,
           let task_key := task_key_prefix +:+ worker_id in
           match lindex (list_of st task_key) 0 with
           | Some task_id => task_ids ++ [task_id]
           | None => task_ids
           end)
        [] worker_ids.

Definition get_running_task_ids (self : t) : Redis (list string) :=
  settings ← get_settings;
  let task_key_prefix := RedisKey settings "worker_task:" in
  decode_list <$> read (lua (key self) task_key_prefix).

Definition get_dead_ids (self : t) : Redis (list string) :=
  now ← connection.ftime;
  settings ← get_settings;
  let oldest_valid := now - WORKER_HEARTBEAT_TIMEOUT settings in
  decode_list <$> connection.zrangebyscore (key self) NegInf (Score oldest_valid).

(** [worker_registry.get_dead_ids(self)] passes one positional argument to
    a method that takes none. *)
Definition handle_died_workers (worker_registry self : t) : Redis unit :=
  resolve methods "get_dead_ids" 1;;
  died_worker_ids ← get_dead_ids worker_registry;
  for_each died_worker_ids (λ worker_id,
    worker ← Worker.fetch worker_id;
    Worker.died worker).
End WorkerRegistry.

Definition worker_registry (settings : Settings) : WorkerRegistry.t :=
  WorkerRegistry.__init__ settings.

(** A computation run at another reading of the server clock. *)
Definition at_clock {A : Type} (now : Z) (m : Redis A) : Redis A := λ env st,
  m {| settings := settings env; clock := now |} st.

(** [registry_maintenance].  Each [expire] reads [connection.ftime()]
    itself: the first sweep reads the clock of the environment, the second
    the reading [second_reading], which the clock shows by then.  The last
    line calls [worker_registry.handle_dead_workers()]; the class has no
    method of that name, so the call ends in the lookup. *)
Definition registry_maintenance (second_reading : Z) : Redis unit :=
  settings ← get_settings;
  ExpiringRegistry.expire (finished_task_registry settings);;
  at_clock second_reading
    (ExpiringRegistry.expire (failed_task_registry settings));;
  resolve WorkerRegistry.methods "handle_dead_workers" 0.

(** ** QueueRegistry *)

Module QueueRegistry.
Record t : Type := { key : string }.

Definition __init__ (settings : Settings) : t :=
  {| key := RedisKey settings "queues" |}.

Definition sorted (l : list string) : list string := merge_sort String.le l.

Definition get_names (self : t) : Redis (list string) :=
  sorted <$> (decode_list <$> connection.smembers (key self)).

Definition add (self : t) (queue : Queue.t) : option Pipeline → Redis Pipeline :=
  atomic_pipeline (λ pipeline,
    mret (pipeline ++ [SADD (key self) (Queue.name queue)])).

Definition remove (self : t) (queue : Queue.t) : option Pipeline → Redis Pipeline :=
  atomic_pipeline (λ pipeline,
    mret (pipeline ++ [SREM (key self) (Queue.name queue)])).
End QueueRegistry.

Definition queue_registry (settings : Settings) : QueueRegistry.t :=
  QueueRegistry.__init__ settings.

(** ** The command-line tool ([redis_tasks/cli/cli.py])

    The commands are embedded over the process state they change themselves
    ([sys.path], the lines written by [click.echo]) and a state of the
    collaborators they call (queues, workers, the connection), which is a
    parameter, as are the collaborators. *)

Module cli.

Inductive exc : Type :=
| TypeError
| ConnectionError (message : string)
| KeyboardInterrupt
| SystemExit (code : Z).

Inductive result (A : Type) : Type :=
| Done (a : A)
| Raised (e : exc).
Arguments Done {A} a.
Arguments Raised {A} e.

(** [s.split(sep)] for a separator of one character. *)
Fixpoint split (sep : ascii) (s : string) : list string :=
  match s with
  | EmptyString => [EmptyString]
  | String a s' =>
      if decide (a = sep) then EmptyString :: split sep s'
      else match split sep s' with
           | h :: t => String a h :: t
           | [] => [String a EmptyString]
           end
  end.

(** [sep.join(l)] *)
Fixpoint join (sep : ascii) (l : list string) : string :=
  match l with
  | [] => EmptyString
  | [s] => s
  | s :: l => s +:+ String sep (join sep l)
  end.

Fixpoint contains (c : ascii) (s : string) : bool :=
  match s with
  | EmptyString => false
  | String a s' => bool_decide (a = c) || contains c s'
  end.

(** [if path: sys.path = path.split(':') + sys.path] *)
Definition extend_sys_path (path : string) (sys_path : list string) : list string :=
  if decide (path = EmptyString) then sys_path
  else split ":"%char path ++ sys_path.

(** *** Parameters of a command and their names *)

(** The declarations of a [click.option], or the name of a
    [click.argument]. *)
Inductive param : Type :=
| option_ (decls : list string)
| argument (name : string).

Fixpoint leading_dashes (s : string) : nat :=
  match s with
  | String "-"%char s' => S (leading_dashes s')
  | _ => 0%nat
  end.

Fixpoint strip_dashes (s : string) : string :=
  match s with
  | String "-"%char s' => strip_dashes s'
  | _ => s
  end.

Fixpoint dashes_to_underscores (s : string) : string :=
  match s with
  | EmptyString => EmptyString
  | String a s' =>
      String (if decide (a = "-"%char) then "_"%char else a) (dashes_to_underscores s')
  end.

(** The declaration with the longest prefix of dashes, the first of them. *)
Fixpoint longest_prefix (decls : list string) : option string :=
  match decls with
  | [] => None
  | d :: decls =>
      match longest_prefix decls with
      | Some d' =>
          if bool_decide (leading_dashes d < leading_dashes d')%nat
          then Some d' else Some d
      | None => Some d
      end
  end.

(** The keyword under which the value of a parameter reaches the command:
    an argument under its name, an option under its longest flag without the
    dashes in front and with [_] for [-]. *)
Definition param_name (p : param) : string :=
  match p with
  | argument name => name
  | option_ decls =>
      dashes_to_underscores (strip_dashes (default EmptyString (longest_prefix decls)))
  end.

Definition shared_options : list param :=
  [option_ ["--url"; "-u"];
   option_ ["--config"; "-c"];
   option_ ["--worker-class"; "-w"];
   option_ ["--task-class"; "-j"];
   option_ ["--queue-class"];
   option_ ["--connection-class"]].

Definition empty_params : list param :=
  [option_ ["--all"; "-a"]; argument "queues"].

Definition info_params : list param :=
  [option_ ["--path"; "-P"];
   option_ ["--interval"; "-i"];
   option_ ["--raw"; "-r"];
   option_ ["--only-queues"; "-Q"];
   option_ ["--only-workers"; "-W"];
   option_ ["--by-queue"; "-R"];
   argument "queues"].

Definition worker_params : list param :=
  [option_ ["--burst"; "-b"];
   option_ ["--name"; "-n"];
   option_ ["--path"; "-P"];
   option_ ["--worker-ttl"];
   option_ ["--verbose"; "-v"];
   option_ ["--quiet"; "-q"];
   option_ ["--sentry-dsn"];
   option_ ["--exception-handler"];
   option_ ["--pid"];
   argument "queues"].

(** *** Calling a function with keywords *)

(** The named parameters of a [def], none with a default, and whether it
    ends in [**options]. *)
Record signature : Type := {
  parameters : list string;
  var_keyword : bool
}.

Definition empty_signature : signature :=
  {| parameters := ["cli_config"; "all"; "queues"]; var_keyword := true |}.

Definition info_signature : signature :=
  {| parameters := ["cli_config"; "path"; "interval"; "raw"; "only_queues";
                    "only_workers"; "by_queue"; "queues"];
     var_keyword := true |}.

Definition worker_signature : signature :=
  {| parameters := ["cli_config"; "burst"; "name"; "path"; "results_ttl";
                    "worker_ttl"; "verbose"; "quiet"; "sentry_dsn";
                    "exception_handler"; "pid"; "queues"];
     var_keyword := true |}.

(** The parameters a call leaves without a value. *)
Definition missing (sig : signature) (positional : nat)
    (keywords : list string) : list string :=
  filter (λ p, p ∉ keywords) (drop positional (parameters sig)).

(** A call with [positional] positional arguments and the given keywords
    raises [TypeError] when there are more positional arguments than
    parameters, when a keyword names a parameter a positional argument has
    filled, when a keyword names no parameter and there is no [**options],
    or when a parameter is left without a value. *)
Definition bind_call (sig : signature) (positional : nat)
    (keywords : list string) : result unit :=
  if bool_decide (length (parameters sig) < positional)%nat then Raised TypeError
  else if bool_decide (Exists (λ k, k ∈ take positional (parameters sig)) keywords)
  then Raised TypeError
  else if negb (var_keyword sig) &&
          bool_decide (Exists (λ k, k ∉ parameters sig) keywords)
  then Raised TypeError
  else if bool_decide (missing sig positional keywords = []) then Done ()
  else Raised TypeError.

Section commands.
Context {World Queue View : Type}.

(** What a command changes: the state of the collaborators, [sys.path] and
    the lines echoed. *)
Record Process : Type := {
  world : World;
  sys_path : list string;
  stdout : list string
}.

Definition Command : Type := Process → result unit * Process.

Definition echo (line : string) (p : Process) : Process :=
  {| world := world p; sys_path := sys_path p; stdout := stdout p ++ [line] |}.

(** [pass_cli_config]: the wrapper receives the values of the command's
    parameters and of the shared options as keywords, builds the
    configuration from them ([CliConfig], of [cli/helpers.py], taken to
    succeed) and calls the command with the configuration first and the same
    keywords after it. *)
Definition pass_cli_config (sig : signature) (params : list param)
    (func : Command) : Command := λ p,
  let kwargs := param_name <$> (params ++ shared_options) in
  match bind_call sig 1 kwargs with
  | Done _ => func p
  | Raised e => (Raised e, p)
  end.

(** Collaborators of [empty]: [queue_class.all(...)], [queue_class(name,
    ...)], [queue.name] and [queue.empty()]. *)
Variable queue_class_all : World → list Queue.
Variable queue_class : string → Queue.
Variable queue_name : Queue → string.
Variable queue_empty : Queue → World → Z * World.

Fixpoint empty_each (queues : list Queue) (p : Process) : Process :=
  match queues with
  | [] => p
  | queue :: queues =>
      let '(num_tasks, w) := queue_empty queue (world p) in
      empty_each queues
        (echo (pretty num_tasks +:+ " tasks removed from " +:+
               queue_name queue +:+ " queue")
           {| world := w; sys_path := sys_path p; stdout := stdout p |})
  end.

Definition empty (all : bool) (queues : list string) : Command := λ p,
  let queues :=
    if all then queue_class_all (world p) else queue_class <$> queues in
  match queues with
  | [] => (Raised (SystemExit 0), echo "Nothing to do" p)
  | _ :: _ => (Done (), empty_each queues p)
  end.

(** Collaborators of [info]: the three views and [refresh], run inside
    [with Connection(...)]. *)
Variable show_queues show_workers show_both : View.
Variable refresh :
  option Z → View → list string → bool → bool → World → result unit * World * list string.

Definition info (path : string) (interval : option Z) (raw only_queues
    only_workers by_queue : bool) (queues : list string) : Command := λ p,
  let p := {| world := world p; sys_path := extend_sys_path path (sys_path p);
              stdout := stdout p |} in
  let func :=
    if only_queues then show_queues
    else if only_workers then show_workers
    else show_both in
  let '(r, w, lines) := refresh interval func queues raw by_queue (world p) in
  let p := {| world := w; sys_path := sys_path p; stdout := stdout p ++ lines |} in
  match r with
  | Done _ => (Done (), p)
  | Raised (ConnectionError e) => (Raised (SystemExit 1), echo e p)
  | Raised KeyboardInterrupt => (Raised (SystemExit 0), echo EmptyString p)
  | Raised e => (Raised e, p)
  end.

(** The commands as [main] registers them. *)
Definition empty_command (all : bool) (queues : list string) : Command :=
  pass_cli_config empty_signature empty_params (empty all queues).

Definition info_command (path : string) (interval : option Z) (raw only_queues
    only_workers by_queue : bool) (queues : list string) : Command :=
  pass_cli_config info_signature info_params
    (info path interval raw only_queues only_workers by_queue queues).

(** The body of [worker] is a parameter here: the call never reaches it. *)
Definition worker_command (worker : Command) : Command :=
  pass_cli_config worker_signature worker_params worker.

End commands.
End cli.

(** ** Sample configurations and stores *)

Definition sample_settings : Settings :=
  {| EXPIRING_REGISTRIES_TTL := 60;
     WORKER_HEARTBEAT_TIMEOUT := 30;
     REDIS_PREFIX := "rq:" |}.

Definition at_time (now : Z) : Env :=
  {| settings := sample_settings; clock := now |}.

Definition empty_store : Store :=
  {| zsets := ∅; sets := ∅; lists := ∅; tasks := ∅ |}.

(** Two workers, each running a task of its own; two finished tasks. *)
Definition sample_store : Store :=
  {| zsets := {[ "rq:workers" := {[ "w1" := 10; "w2" := 50 ]};
                 "rq:finished_tasks" := {[ "tx" := 100; "ty" := 150 ]} ]};
     sets := {[ "rq:queues" := {[ "high"; "default" ]} ]};
     lists := {[ "rq:worker_task:w1" := ["t1"]; "rq:worker_task:w2" := ["t2"] ]};
     tasks := {[ "tx" := {| status := finished; origin := "default" |};
                 "ty" := {| status := finished; origin := "default" |};
                 "t1" := {| status := running; origin := "default" |};
                 "t2" := {| status := running; origin := "high" |} ]} |}.

(** Two workers whose slots name the same task. *)
Definition shared_slot_store : Store :=
  {| zsets := {[ "rq:workers" := {[ "w1" := 10; "w2" := 50 ]} ]};
     sets := ∅;
     lists := {[ "rq:worker_task:w1" := ["t"]; "rq:worker_task:w2" := ["t"] ]};
     tasks := {[ "t" := {| status := running; origin := "default" |} ]} |}.

(** A finished-task registry with an entry below zero. *)
Definition negative_score_store : Store :=
  {| zsets := {[ "rq:finished_tasks" := {[ "tn" := -5; "tx" := 100 ]} ]};
     sets := ∅; lists := ∅;
     tasks := {[ "tn" := {| status := finished; origin := "default" |};
                 "tx" := {| status := finished; origin := "default" |} ]} |}.

(** * Properties *)

(** ** Sorted sets *)

#[global] Instance entry_le_total : Total ZSet.entry_le.
Proof.
  intros [m1 s1] [m2 s2]. unfold ZSet.entry_le. simpl.
  destruct (Z.lt_trichotomy s1 s2) as [?|[->|?]]; [auto| |auto].
  destruct (total String.le m1 m2); auto.
Qed.

#[global] Instance entry_le_trans : Transitive ZSet.entry_le.
Proof.
  intros [m1 s1] [m2 s2] [m3 s3]. unfold ZSet.entry_le. simpl.
  intros [?|[-> ?]] [?|[-> ?]]; [left; lia..|].
  right. split; [done|]. by etrans.
Qed.

Section zset_facts.
Implicit Types (z : gmap string Z) (lo hi : bound) (id : string) (s : Z).

Lemma entries_Permutation z : ZSet.entries z ≡ₚ map_to_list z.
Proof. apply merge_sort_Permutation. Qed.

Lemma elem_of_entries z id s : (id, s) ∈ ZSet.entries z ↔ z !! id = Some s.
Proof. by rewrite entries_Permutation, elem_of_map_to_list. Qed.

Lemma entries_sorted z : StronglySorted ZSet.entry_le (ZSet.entries z).
Proof. apply (StronglySorted_merge_sort _). Qed.

Lemma NoDup_entries_ids z : NoDup (ZSet.entries z).*1.
Proof. rewrite entries_Permutation. apply NoDup_fst_map_to_list. Qed.

Lemma elem_of_entries_ids z id : id ∈ (ZSet.entries z).*1 ↔ is_Some (z !! id).
Proof.
  rewrite list_elem_of_fmap. split.
  - intros [[id' s] [-> Hin]]. apply elem_of_entries in Hin. by exists s.
  - intros [s Hs]. exists (id, s). split; [done|]. by apply elem_of_entries.
Qed.

Lemma elem_of_zrangebyscore lo hi z id :
  id ∈ ZSet.zrangebyscore lo hi z ↔ ∃ s, z !! id = Some s ∧ in_range lo hi s.
Proof.
  unfold ZSet.zrangebyscore. rewrite list_elem_of_fmap. split.
  - intros [[id' s] [-> [Hr Hin]%list_elem_of_filter]].
    apply elem_of_entries in Hin. by exists s.
  - intros (s & Hs & Hr). exists (id, s). split; [done|].
    apply list_elem_of_filter. split; [done|]. by apply elem_of_entries.
Qed.

Lemma zrangebyscore_all z :
  ZSet.zrangebyscore NegInf PosInf z = (ZSet.entries z).*1.
Proof.
  unfold ZSet.zrangebyscore. f_equal.
  induction (ZSet.entries z) as [|e l IH]; [done|].
  rewrite filter_cons_True by done. by f_equal.
Qed.

Lemma zrange_all z : ZSet.zrange 0 (-1) z = (ZSet.entries z).*1.
Proof.
  unfold ZSet.zrange. cbv zeta. set (l := ZSet.entries z).
  rewrite (bool_decide_eq_false_2 (0 < 0)) by lia.
  rewrite (bool_decide_eq_true_2 (-1 < 0)) by lia.
  rewrite Z.min_l by lia. case_bool_decide as Hlen.
  - rewrite drop_0, firstn_all2; [done|]. lia.
  - destruct l; [done|]. simpl in Hlen. lia.
Qed.

Lemma lookup_zremrangebyscore lo hi z id :
  (ZSet.zremrangebyscore lo hi z).1 !! id =
    s ← z !! id; if in_range lo hi s then None else Some s.
Proof.
  unfold ZSet.zremrangebyscore, fst. rewrite map_lookup_filter.
  destruct (z !! id) as [s|]; [|done]. cbn [mbind option_bind snd].
  destruct (in_range lo hi s) eqn:Hr.
  - rewrite option_guard_False; [done|]. intros Hn. apply Hn. done.
  - rewrite option_guard_True; [done|]. intros Hn. done.
Qed.

Lemma zrangebyscore_nil lo hi z :
  ZSet.zrangebyscore lo hi z = [] ↔ map_Forall (λ _ s, ¬ in_range lo hi s) z.
Proof.
  split.
  - intros Hnil id s Hs Hr.
    assert (id ∈ ZSet.zrangebyscore lo hi z) as Hin
      by (apply elem_of_zrangebyscore; eauto).
    rewrite Hnil in Hin. by apply not_elem_of_nil in Hin.
  - intros Hall. destruct (ZSet.zrangebyscore lo hi z) as [|id l] eqn:Heq; [done|].
    assert (id ∈ ZSet.zrangebyscore lo hi z) as Hin by (rewrite Heq; left).
    apply elem_of_zrangebyscore in Hin as (s & Hs & Hr).
    by destruct (Hall id s Hs).
Qed.
End zset_facts.

Lemma StronglySorted_lookup_lt {A} (R : relation A) (l : list A) (i j : nat) x y :
  StronglySorted R l → (i < j)%nat → l !! i = Some x → l !! j = Some y → R x y.
Proof.
  intros Hs. revert i j. induction Hs as [|a l Hs IH Hall]; intros i j Hij Hi Hj.
  - done.
  - destruct j as [|j]; [lia|]. simpl in Hj. destruct i as [|i].
    + simpl in Hi. injection Hi as ->.
      rewrite Forall_forall in Hall. apply Hall. eapply list_elem_of_lookup_2, Hj.
    + simpl in Hi. apply (IH i j); [lia|done..].
Qed.

(** ** The store *)

Section store_facts.
Implicit Types (st : Store) (key : string).

Lemma zset_of_put_zset key z st : zset_of (put_zset key z st) key = z.
Proof.
  unfold put_zset. case_decide as Hsame; [done|].
  unfold zset_of. simpl. case_decide as Hz.
  - by rewrite lookup_delete_eq.
  - by rewrite lookup_insert_eq.
Qed.

Lemma zset_of_put_zset_ne key key' z st :
  key ≠ key' → zset_of (put_zset key z st) key' = zset_of st key'.
Proof.
  intros Hne. unfold put_zset. case_decide as Hsame; [done|].
  unfold zset_of. simpl. case_decide.
  - by rewrite lookup_delete_ne.
  - by rewrite lookup_insert_ne.
Qed.

Lemma put_zset_frame key z st :
  sets (put_zset key z st) = sets st ∧ lists (put_zset key z st) = lists st ∧
  tasks (put_zset key z st) = tasks st.
Proof. unfold put_zset. by case_decide. Qed.

Lemma put_zset_same key st : put_zset key (zset_of st key) st = st.
Proof. unfold put_zset. by rewrite decide_True. Qed.

Lemma set_of_put_set key s st : set_of (put_set key s st) key = s.
Proof.
  unfold put_set. case_decide as Hsame; [done|].
  unfold set_of. simpl. case_decide as Hz.
  - by rewrite lookup_delete_eq.
  - by rewrite lookup_insert_eq.
Qed.

Lemma put_set_same key st : put_set key (set_of st key) st = st.
Proof. unfold put_set. by rewrite decide_True. Qed.

Lemma put_set_frame key s st :
  zsets (put_set key s st) = zsets st ∧ lists (put_set key s st) = lists st ∧
  tasks (put_set key s st) = tasks st.
Proof. unfold put_set. by case_decide. Qed.

Lemma zset_of_put_tasks t st key : zset_of (put_tasks t st) key = zset_of st key.
Proof. done. Qed.
End store_facts.

Lemma in_range_scores (a b s : Z) : in_range (Score a) (Score b) s ↔ a ≤ s ≤ b.
Proof.
  unfold in_range, above, below.
  rewrite andb_True, !bool_decide_spec. done.
Qed.

Lemma in_range_upto (b s : Z) : in_range NegInf (Score b) s ↔ s ≤ b.
Proof. unfold in_range, above, below. simpl. by rewrite bool_decide_spec. Qed.

Lemma lookup_delete_records (task_ids : list string) (t : gmap string TaskRecord) id :
  delete_records task_ids t !! id = if decide (id ∈ task_ids) then None else t !! id.
Proof.
  unfold delete_records. rewrite map_lookup_filter.
  destruct (t !! id) as [r|]; simpl; [|by case_decide].
  case_decide.
  - by rewrite option_guard_False by naive_solver.
  - by rewrite option_guard_True by done.
Qed.

(** ** ExpiringRegistry.expire *)

Lemma expire_run (env : Env) (st : Store) (self : ExpiringRegistry.t) :
  let key := ExpiringRegistry.key self in
  let cutoff := clock env - EXPIRING_REGISTRIES_TTL (settings env) in
  let removed := ZSet.zrangebyscore (Score 0) (Score cutoff) (zset_of st key) in
  ExpiringRegistry.expire self env st =
    match removed with
    | [] => (Return (), st, [])
    | _ :: _ =>
        let st1 := put_zset key
          (ZSet.zremrangebyscore (Score 0) (Score cutoff) (zset_of st key)).1 st in
        (Return (), put_tasks (delete_records removed (tasks st1)) st1,
         [ZREMRANGEBYSCORE key (Score 0) (Score cutoff); TASK_DELETE_MANY removed])
    end.
Proof.
  intros key cutoff removed.
  unfold ExpiringRegistry.expire, mbind, Redis_bind, fmap, Redis_fmap,
    connection.ftime, get_settings, connection.zrangebyscore, read, decode_list.
  fold key cutoff removed. destruct removed as [|id l]; reflexivity.
Qed.

(** C1. [expire] reads the clock once and uses the one cutoff [now - TTL]
    for the range it reads and the range it removes.  The entries it removes
    from the sorted set are exactly those with a score in [[0, cutoff]]; the
    task records it deletes are exactly those of the removed ids, and the
    deletion is the call after the removal.  Hence an entry written at a
    time [T] of the server clock stays while [now < T + TTL] and goes, with
    its record, once [now >= T + TTL]; entries above the cutoff, other keys,
    sets and lists are left alone. *)
Theorem expire_removes_exactly (env : Env) (st : Store) (self : ExpiringRegistry.t) :
  let key := ExpiringRegistry.key self in
  let ttl := EXPIRING_REGISTRIES_TTL (settings env) in
  let cutoff := clock env - ttl in
  let z := zset_of st key in
  let removed := ZSet.zrangebyscore (Score 0) (Score cutoff) z in
  ∃ st',
    ExpiringRegistry.expire self env st =
      (Return (), st',
       if decide (removed = []) then []
       else [ZREMRANGEBYSCORE key (Score 0) (Score cutoff);
             TASK_DELETE_MANY removed]) ∧
    (∀ id, id ∈ removed ↔ ∃ T, z !! id = Some T ∧ 0 ≤ T ≤ cutoff) ∧
    (∀ id, zset_of st' key !! id = if decide (id ∈ removed) then None else z !! id) ∧
    (∀ id, tasks st' !! id = if decide (id ∈ removed) then None else tasks st !! id) ∧
    (∀ id T, z !! id = Some T →
       (clock env < T + ttl →
          zset_of st' key !! id = Some T ∧ tasks st' !! id = tasks st !! id) ∧
       (cutoff < T → zset_of st' key !! id = Some T) ∧
       (0 ≤ T → T + ttl ≤ clock env →
          zset_of st' key !! id = None ∧ tasks st' !! id = None)) ∧
    (∀ key', key' ≠ key → zset_of st' key' = zset_of st key') ∧
    sets st' = sets st ∧ lists st' = lists st.
Proof.
  intros key ttl cutoff z removed.
  assert (Hmem : ∀ id, id ∈ removed ↔ ∃ T, z !! id = Some T ∧ 0 ≤ T ≤ cutoff).
  { intros id. unfold removed. rewrite elem_of_zrangebyscore.
    by setoid_rewrite in_range_scores. }
  assert (Hgen : ∃ st',
    ExpiringRegistry.expire self env st =
      (Return (), st',
       if decide (removed = []) then []
       else [ZREMRANGEBYSCORE key (Score 0) (Score cutoff);
             TASK_DELETE_MANY removed]) ∧
    (∀ id, zset_of st' key !! id = if decide (id ∈ removed) then None else z !! id) ∧
    (∀ id, tasks st' !! id = if decide (id ∈ removed) then None else tasks st !! id) ∧
    (∀ key', key' ≠ key → zset_of st' key' = zset_of st key') ∧
    sets st' = sets st ∧ lists st' = lists st).
  { rewrite expire_run. fold key ttl cutoff z removed.
    destruct removed as [|id0 l] eqn:Hrem.
    - exists st. rewrite decide_True by done.
      repeat split; try done;
        intros id; rewrite decide_False; try done; apply not_elem_of_nil.
    - eexists. rewrite decide_False by done. split; [reflexivity|].
      rewrite <- Hrem in *. clear Hrem. repeat split.
      + intros id.
        rewrite zset_of_put_tasks, zset_of_put_zset, lookup_zremrangebyscore.
        case_decide as Hin.
        * apply Hmem in Hin as (T & -> & HT). simpl.
          apply in_range_scores in HT. by destruct (in_range _ _ T).
        * destruct (z !! id) as [T|] eqn:Hz; [|done]. simpl.
          destruct (in_range (Score 0) (Score cutoff) T) eqn:Hr; [|done].
          destruct Hin. apply Hmem. exists T. split; [done|].
          apply in_range_scores. by rewrite Hr.
      + intros id. cbn [tasks put_tasks]. rewrite lookup_delete_records.
        by rewrite (proj2 (proj2 (put_zset_frame _ _ _))).
      + intros key' Hne. by rewrite zset_of_put_tasks, zset_of_put_zset_ne.
      + cbn [sets put_tasks]. apply put_zset_frame.
      + cbn [lists put_tasks]. apply put_zset_frame. }
  destruct Hgen as (st' & Hrun & Hz & Ht & Hframe).
  exists st'. split; [done|]. split; [done|]. split; [done|]. split; [done|].
  split; [|done].
  intros id T HT. rewrite Hz, Ht. repeat split.
  - rewrite decide_False; [done|]. rewrite Hmem. intros (T' & ? & ?).
    simplify_eq. unfold cutoff in *. lia.
  - rewrite decide_False; [done|]. rewrite Hmem. intros (T' & ? & ?).
    simplify_eq. unfold cutoff in *. lia.
  - intros Hlt. rewrite decide_False; [done|]. rewrite Hmem. intros (T' & ? & ?).
    simplify_eq. unfold cutoff in *. lia.
  - rewrite decide_True; [done|]. apply Hmem. exists T. unfold cutoff. split; [done|lia].
  - rewrite decide_True; [done|]. apply Hmem. exists T. unfold cutoff. split; [done|lia].
Qed.

(** C10. When every score of the registry is above the cutoff [now - TTL]
    (in particular when the registry is empty), [expire] returns with the
    store as it was and has made no call: nothing is removed from the sorted
    set and [Task.delete_many] is not called. *)
Theorem expire_noop (env : Env) (st : Store) (self : ExpiringRegistry.t) :
  map_Forall (λ _ s, clock env - EXPIRING_REGISTRIES_TTL (settings env) < s)
    (zset_of st (ExpiringRegistry.key self)) →
  ExpiringRegistry.expire self env st = (Return (), st, []).
Proof.
  intros Hfresh. rewrite expire_run. cbv zeta.
  assert (ZSet.zrangebyscore (Score 0)
            (Score (clock env - EXPIRING_REGISTRIES_TTL (settings env)))
            (zset_of st (ExpiringRegistry.key self)) = []) as ->; [|done].
  apply zrangebyscore_nil. intros id s Hs Hr.
  apply in_range_scores in Hr. specialize (Hfresh id s Hs). simpl in Hfresh. lia.
Qed.

Lemma expire_noop_witness :
  ExpiringRegistry.expire (finished_task_registry sample_settings)
    (at_time 159) sample_store = (Return (), sample_store, []).
Proof.
  apply expire_noop. apply (bool_decide_unpack _). vm_compute. exact I.
Defined.

Lemma expire_noop_empty :
  ExpiringRegistry.expire (finished_task_registry sample_settings)
    (at_time 1000) empty_store = (Return (), empty_store, []).
Proof. by vm_compute. Qed.

(** Scenario 4 of the specification: TTL 60, an entry written at 100. *)
Example expire_scenario :
  let self := finished_task_registry sample_settings in
  let st159 := (ExpiringRegistry.expire self (at_time 159) sample_store).1.2 in
  let st161 := (ExpiringRegistry.expire self (at_time 161) sample_store).1.2 in
  zset_of st159 "rq:finished_tasks" !! "tx" = Some 100 ∧
  zset_of st161 "rq:finished_tasks" !! "tx" = None ∧
  tasks st161 !! "tx" = None ∧
  zset_of st161 "rq:finished_tasks" !! "ty" = Some 150.
Proof. vm_compute. done. Qed.

(** ** WorkerRegistry.heartbeat *)

Lemma heartbeat_run (env : Env) (st : Store) (self : WorkerRegistry.t)
    (worker : Worker.t) :
  let key := WorkerRegistry.key self in
  let id := Worker.id worker in
  let now := clock env in
  WorkerRegistry.heartbeat self worker env st =
    match zset_of st key !! id with
    | Some old =>
        if bool_decide (old = now)
        then (Raise NoSuchWorkerError, st, [ZADD key id now true true])
        else (Return (), put_zset key (<[id := now]> (zset_of st key)) st,
              [ZADD key id now true true])
    | None => (Raise NoSuchWorkerError, st, [ZADD key id now true true])
    end.
Proof.
  intros key id now.
  unfold WorkerRegistry.heartbeat, mbind, Redis_bind, connection.ftime,
    connection.zadd, issue, perform, ZSet.zadd.
  fold key id now. destruct (zset_of st key !! id) as [old|] eqn:Hold.
  - case_bool_decide; simpl.
    + by rewrite put_zset_same.
    + done.
  - simpl. by rewrite put_zset_same.
Qed.

(** [heartbeat] raises exactly when the id is absent or is present with the
    score the clock shows now. *)
Lemma heartbeat_raises_iff (env : Env) (st : Store) (self : WorkerRegistry.t)
    (worker : Worker.t) :
  let z := zset_of st (WorkerRegistry.key self) in
  (WorkerRegistry.heartbeat self worker env st).1.1 = Raise NoSuchWorkerError ↔
  z !! Worker.id worker = None ∨ z !! Worker.id worker = Some (clock env).
Proof.
  intros z. rewrite heartbeat_run. cbv zeta. fold z.
  destruct (z !! Worker.id worker) as [old|]; [|by split; [left|]].
  case_bool_decide as Hold; simpl.
  - split; [intros _; right; by subst|done].
  - split; [done|]. intros [?|?]; congruence.
Qed.

(** C2, at the input where it fails.  The worker [w1] is in the liveness
    registry with the score 10 and the clock shows 10: [ZADD] with [XX] and
    [CH] changes nothing and replies 0, and [heartbeat] raises
    [NoSuchWorkerError] for a worker that is registered. *)
Theorem heartbeat_raises_for_registered_worker :
  let self := worker_registry sample_settings in
  let worker := {| Worker.id := "w1" |} in
  zset_of sample_store (WorkerRegistry.key self) !! "w1" = Some 10 ∧
  WorkerRegistry.heartbeat self worker (at_time 10) sample_store =
    (Raise NoSuchWorkerError, sample_store,
     [ZADD "rq:workers" "w1" 10 true true]).
Proof. split; [by vm_compute|]. by rewrite heartbeat_run. Qed.

(** What C2 states, away from that input: an absent id raises and leaves the
    store alone; an id present with another score is moved to the time the
    clock shows and the call returns. *)
Lemma heartbeat_absent (env : Env) (st : Store) (self : WorkerRegistry.t)
    (worker : Worker.t) :
  zset_of st (WorkerRegistry.key self) !! Worker.id worker = None →
  WorkerRegistry.heartbeat self worker env st =
    (Raise NoSuchWorkerError, st,
     [ZADD (WorkerRegistry.key self) (Worker.id worker) (clock env) true true]).
Proof. intros Habs. rewrite heartbeat_run. cbv zeta. by rewrite Habs. Qed.

Lemma heartbeat_present (env : Env) (st : Store) (self : WorkerRegistry.t)
    (worker : Worker.t) (old : Z) :
  zset_of st (WorkerRegistry.key self) !! Worker.id worker = Some old →
  old ≠ clock env →
  ∃ st',
    WorkerRegistry.heartbeat self worker env st =
      (Return (), st',
       [ZADD (WorkerRegistry.key self) (Worker.id worker) (clock env) true true]) ∧
    zset_of st' (WorkerRegistry.key self) !! Worker.id worker = Some (clock env).
Proof.
  intros Hold Hne. rewrite heartbeat_run. cbv zeta. rewrite Hold.
  rewrite bool_decide_eq_false_2 by done. eexists. split; [done|].
  by rewrite zset_of_put_zset, lookup_insert_eq.
Qed.

(** C6. [heartbeat] never adds an entry.  The ids of the liveness registry
    are the same after the call as before; every entry but the worker's own
    keeps its score; the other keys, the sets, the lists and the task records
    are as before.  For an id that is absent the call raises
    [NoSuchWorkerError] and the store after it is the store before it. *)
Theorem heartbeat_never_inserts (env : Env) (st : Store)
    (self : WorkerRegistry.t) (worker : Worker.t) :
  let key := WorkerRegistry.key self in
  let id := Worker.id worker in
  ∃ r st' cs,
    WorkerRegistry.heartbeat self worker env st = (r, st', cs) ∧
    (zset_of st key !! id = None → r = Raise NoSuchWorkerError ∧ st' = st) ∧
    dom (zset_of st' key) = dom (zset_of st key) ∧
    (∀ other, other ≠ id → zset_of st' key !! other = zset_of st key !! other) ∧
    (∀ key', key' ≠ key → zset_of st' key' = zset_of st key') ∧
    sets st' = sets st ∧ lists st' = lists st ∧ tasks st' = tasks st.
Proof.
  intros key id. rewrite heartbeat_run. fold key id.
  destruct (zset_of st key !! id) as [old|] eqn:Hold.
  - case_bool_decide.
    + eexists _, st, _. split; [done|]. by repeat split.
    + eexists _, _, _. split; [done|]. split; [done|].
      rewrite zset_of_put_zset. split; [|split; [|split]].
      * by apply dom_insert_lookup_L.
      * intros other Hne. by rewrite lookup_insert_ne.
      * intros key' Hne. by apply zset_of_put_zset_ne.
      * apply put_zset_frame.
  - eexists _, st, _. split; [done|]. by repeat split.
Qed.

Example heartbeat_absent_sample :
  WorkerRegistry.heartbeat (worker_registry sample_settings)
    {| Worker.id := "w9" |} (at_time 60) sample_store =
    (Raise NoSuchWorkerError, sample_store,
     [ZADD "rq:workers" "w9" 60 true true]).
Proof. by apply heartbeat_absent. Qed.

Example heartbeat_present_sample :
  let r := WorkerRegistry.heartbeat (worker_registry sample_settings)
             {| Worker.id := "w1" |} (at_time 60) sample_store in
  r.1.1 = Return () ∧
  map_to_list (zset_of r.1.2 "rq:workers") ≡ₚ [("w1", 60); ("w2", 50)].
Proof. split; [by vm_compute|]. vm_compute. apply Permutation_refl. Qed.

(** ** WorkerRegistry.get_dead_ids *)

Lemma get_dead_ids_run (env : Env) (st : Store) (self : WorkerRegistry.t) :
  WorkerRegistry.get_dead_ids self env st =
    (Return (ZSet.zrangebyscore NegInf
               (Score (clock env - WORKER_HEARTBEAT_TIMEOUT (settings env)))
               (zset_of st (WorkerRegistry.key self))),
     st, []).
Proof. reflexivity. Qed.

(** C3 as stated fails on the boundary: with a timeout of 30 and the clock at
    40, the worker [w1] whose last heartbeat is at 10 satisfies
    [10 >= 40 - 30], and [get_dead_ids] returns it. *)
Lemma get_dead_ids_returns_boundary_worker :
  let self := worker_registry sample_settings in
  let env := at_time 40 in
  zset_of sample_store (WorkerRegistry.key self) !! "w1" = Some 10 ∧
  clock env - WORKER_HEARTBEAT_TIMEOUT (settings env) ≤ 10 ∧
  WorkerRegistry.get_dead_ids self env sample_store =
    (Return ["w1"], sample_store, []).
Proof. split; [by vm_compute|]. split; [by vm_compute|]. by vm_compute. Qed.

(** C3, amended.  [get_dead_ids] reads only, and for a worker of the
    liveness registry with last heartbeat [last] it returns the id exactly
    when [last <= now - HEARTBEAT_TIMEOUT]; so a worker with
    [last > now - HEARTBEAT_TIMEOUT] is never among the ids returned. *)
Theorem get_dead_ids_iff (env : Env) (st : Store) (self : WorkerRegistry.t)
    (id : string) (last : Z) :
  zset_of st (WorkerRegistry.key self) !! id = Some last →
  ∃ dead,
    WorkerRegistry.get_dead_ids self env st = (Return dead, st, []) ∧
    (id ∈ dead ↔ last ≤ clock env - WORKER_HEARTBEAT_TIMEOUT (settings env)) ∧
    (clock env - WORKER_HEARTBEAT_TIMEOUT (settings env) < last → id ∉ dead).
Proof.
  intros Hlast. rewrite get_dead_ids_run. eexists. split; [done|].
  assert (Hiff : id ∈ ZSet.zrangebyscore NegInf
                   (Score (clock env - WORKER_HEARTBEAT_TIMEOUT (settings env)))
                   (zset_of st (WorkerRegistry.key self)) ↔
                 last ≤ clock env - WORKER_HEARTBEAT_TIMEOUT (settings env)).
  { rewrite elem_of_zrangebyscore. setoid_rewrite in_range_upto. split.
    - intros (s & Hs & Hle). by simplify_eq.
    - intros Hle. by exists last. }
  split; [done|]. rewrite Hiff. lia.
Qed.

Lemma get_dead_ids_iff_witness :
  ∃ dead,
    WorkerRegistry.get_dead_ids (worker_registry sample_settings)
      (at_time 39) sample_store = (Return dead, sample_store, []) ∧
    ("w1" ∈ dead ↔ 10 ≤ 39 - 30) ∧
    (39 - 30 < 10 → "w1" ∉ dead).
Proof.
  apply (get_dead_ids_iff (at_time 39) sample_store
           (worker_registry sample_settings) "w1" 10).
  vm_compute. reflexivity.
Defined.

(** Only ids of the liveness registry are returned. *)
Lemma get_dead_ids_registered (env : Env) (st : Store) (self : WorkerRegistry.t)
    (id : string) :
  id ∈ ZSet.zrangebyscore NegInf
         (Score (clock env - WORKER_HEARTBEAT_TIMEOUT (settings env)))
         (zset_of st (WorkerRegistry.key self)) →
  is_Some (zset_of st (WorkerRegistry.key self) !! id).
Proof. rewrite elem_of_zrangebyscore. intros (s & Hs & _). by exists s. Qed.

(** ** WorkerRegistry.get_worker_ids *)

(** C7. [get_worker_ids] reads only and returns every id of the liveness
    registry once, whatever its score (fresh or stale), and no other id; the
    ids come in ascending order of their last-heartbeat timestamps. *)
Theorem get_worker_ids_all_by_timestamp (env : Env) (st : Store)
    (self : WorkerRegistry.t) :
  let z := zset_of st (WorkerRegistry.key self) in
  ∃ ids,
    WorkerRegistry.get_worker_ids self env st = (Return ids, st, []) ∧
    (∀ id, id ∈ ids ↔ is_Some (z !! id)) ∧
    NoDup ids ∧
    (∀ i j wi wj si sj,
       (i < j)%nat → ids !! i = Some wi → ids !! j = Some wj →
       z !! wi = Some si → z !! wj = Some sj → si ≤ sj).
Proof.
  intros z. exists (ZSet.entries z).*1. split; [|split; [|split]].
  - unfold WorkerRegistry.get_worker_ids, fmap, Redis_fmap,
      connection.zrangebyscore, read, decode_list. fold z.
    by rewrite zrangebyscore_all.
  - apply elem_of_entries_ids.
  - apply NoDup_entries_ids.
  - intros i j wi wj si sj Hij Hi Hj Hsi Hsj.
    rewrite list_lookup_fmap in Hi, Hj.
    destruct (ZSet.entries z !! i) as [[wi' si']|] eqn:Hei; simplify_eq/=.
    destruct (ZSet.entries z !! j) as [[wj' sj']|] eqn:Hej; simplify_eq/=.
    pose proof (list_elem_of_lookup_2 _ _ _ Hei) as Hini.
    pose proof (list_elem_of_lookup_2 _ _ _ Hej) as Hinj.
    apply elem_of_entries in Hini, Hinj. simplify_eq.
    pose proof (StronglySorted_lookup_lt _ _ _ _ _ _
                  (entries_sorted z) Hij Hei Hej) as Hle.
    unfold ZSet.entry_le in Hle. simpl in Hle. lia.
Qed.

Example get_worker_ids_sample :
  WorkerRegistry.get_worker_ids (worker_registry sample_settings)
    (at_time 1000) sample_store = (Return ["w1"; "w2"], sample_store, []).
Proof. by vm_compute. Qed.

(** ** WorkerRegistry.get_running_task_ids *)

Lemma lindex_0 (l : list string) : lindex l 0 = head l.
Proof. unfold lindex. rewrite bool_decide_eq_true_2 by lia. by destruct l. Qed.

Lemma foldl_collect {A B} (g : A → option B) (l : list A) (acc : list B) :
  foldl (λ acc x, match g x with Some y => acc ++ [y] | None => acc end) acc l =
    acc ++ omap g l.
Proof.
  revert acc. induction l as [|x l IH]; intros acc; simpl.
  - by rewrite app_nil_r.
  - rewrite IH. destruct (g x); [|done]. by rewrite <- app_assoc.
Qed.

Lemma lua_omap (workers_key task_key_prefix : string) (st : Store) :
  WorkerRegistry.lua workers_key task_key_prefix st =
    omap (λ worker_id, head (list_of st (task_key_prefix +:+ worker_id)))
         (ZSet.zrange 0 (-1) (zset_of st workers_key)).
Proof.
  unfold WorkerRegistry.lua.
  rewrite (foldl_collect
    (λ worker_id, lindex (list_of st (task_key_prefix +:+ worker_id)) 0)).
  simpl. induction (ZSet.zrange 0 (-1) (zset_of st workers_key)) as [|w l IH];
    [done|].
  csimpl. rewrite lindex_0. by rewrite IH.
Qed.

Lemma NoDup_omap_inj {A B} (g : A → option B) (l : list A) :
  NoDup l →
  (∀ x1 x2 y, x1 ∈ l → x2 ∈ l → g x1 = Some y → g x2 = Some y → x1 = x2) →
  NoDup (omap g l).
Proof.
  induction 1 as [|x l Hx Hnd IH]; intros Hinj; simpl; [constructor|].
  assert (NoDup (omap g l)) as IH'.
  { apply IH. intros x1 x2 y ??. apply Hinj; by right. }
  destruct (g x) as [y|] eqn:Hgx; [|done].
  constructor; [|done]. rewrite list_elem_of_omap. intros (x' & Hx' & Hgx').
  assert (x = x') as <-; [|done].
  apply (Hinj x x' y); [left|by right|done..].
Qed.

Lemma get_running_task_ids_run (env : Env) (st : Store) (self : WorkerRegistry.t) :
  WorkerRegistry.get_running_task_ids self env st =
    (Return (omap (λ worker_id,
               head (list_of st (RedisKey (settings env) "worker_task:" +:+ worker_id)))
               (ZSet.zrange 0 (-1) (zset_of st (WorkerRegistry.key self)))),
     st, []).
Proof.
  unfold WorkerRegistry.get_running_task_ids, mbind, Redis_bind, get_settings,
    fmap, Redis_fmap, read, decode_list. simpl. by rewrite lua_omap.
Qed.

(** C5 as stated fails on the last part: when the slots of two workers name
    the same task, the id comes twice. *)
Lemma get_running_task_ids_repeats_shared_task :
  let r := WorkerRegistry.get_running_task_ids (worker_registry sample_settings)
             (at_time 60) shared_slot_store in
  r = (Return ["t"; "t"], shared_slot_store, []) ∧ ¬ NoDup ["t"; "t"].
Proof.
  split; [by vm_compute|]. intros Hnd. apply NoDup_cons in Hnd as [Hnotin _].
  apply Hnotin. left.
Qed.

(** C5, amended.  For every store [get_running_task_ids] reads only.  It
    goes through the ids of the liveness registry in the order of
    [ZRANGE 0 -1] (every id of the registry once) and collects, in that
    order, the task id at the head of each worker's slot; a worker with an
    empty slot adds nothing.  The list returned has no duplicate provided no
    two workers of the registry hold the same task id. *)
Theorem get_running_task_ids_in_worker_order (env : Env) (st : Store)
    (self : WorkerRegistry.t) :
  let z := zset_of st (WorkerRegistry.key self) in
  let slot := λ worker_id,
    head (list_of st (RedisKey (settings env) "worker_task:" +:+ worker_id)) in
  ∃ worker_ids,
    worker_ids = ZSet.zrange 0 (-1) z ∧
    (∀ w, w ∈ worker_ids ↔ is_Some (z !! w)) ∧
    NoDup worker_ids ∧
    WorkerRegistry.get_running_task_ids self env st =
      (Return (omap slot worker_ids), st, []) ∧
    (∀ t, t ∈ omap slot worker_ids ↔ ∃ w, is_Some (z !! w) ∧ slot w = Some t) ∧
    ((∀ w1 w2 t, is_Some (z !! w1) → is_Some (z !! w2) →
        slot w1 = Some t → slot w2 = Some t → w1 = w2) →
     NoDup (omap slot worker_ids)).
Proof.
  intros z slot. exists (ZSet.zrange 0 (-1) z). split; [done|].
  rewrite zrange_all.
  assert (Hmem : ∀ w, w ∈ (ZSet.entries z).*1 ↔ is_Some (z !! w))
    by apply elem_of_entries_ids.
  split; [done|]. split; [apply NoDup_entries_ids|]. split; [|split].
  - rewrite get_running_task_ids_run. fold z. by rewrite zrange_all.
  - intros t. rewrite list_elem_of_omap. by setoid_rewrite Hmem.
  - intros Hinj. apply NoDup_omap_inj; [apply NoDup_entries_ids|].
    intros w1 w2 t Hw1 Hw2. apply Hinj; by apply Hmem.
Qed.

Lemma get_running_task_ids_in_worker_order_witness :
  WorkerRegistry.get_running_task_ids (worker_registry sample_settings)
    (at_time 60) sample_store = (Return ["t1"; "t2"], sample_store, []) ∧
  NoDup ["t1"; "t2"].
Proof.
  destruct (get_running_task_ids_in_worker_order (at_time 60) sample_store
              (worker_registry sample_settings)) as (ws & Hws & _ & _ & Hrun & _ & Hnd).
  subst ws. split; [exact Hrun|]. apply Hnd.
  intros w1 w2 t [s1 Hs1] [s2 Hs2].
  assert (∀ w s, zset_of sample_store "rq:workers" !! w = Some s →
                 w = "w1" ∨ w = "w2") as Hdom.
  { intros w s Hs. apply elem_of_dom_2 in Hs.
    assert (dom (zset_of sample_store "rq:workers") = {["w1"; "w2"]}) as Hd
      by (by vm_compute).
    rewrite Hd in Hs. set_solver. }
  destruct (Hdom _ _ Hs1) as [-> | ->], (Hdom _ _ Hs2) as [-> | ->];
    vm_compute; congruence.
Defined.

(** The content and the order hold on the store of the counterexample too:
    the two workers are read in the order of their scores and each adds the
    task of its slot. *)
Example get_running_task_ids_shared_slots :
  ZSet.zrange 0 (-1) (zset_of shared_slot_store "rq:workers") = ["w1"; "w2"] ∧
  WorkerRegistry.get_running_task_ids (worker_registry sample_settings)
    (at_time 60) shared_slot_store = (Return ["t"; "t"], shared_slot_store, []).
Proof. split; by vm_compute. Qed.

(** ** Dead-worker maintenance *)

(** C4, on every input.  [handle_died_workers] calls
    [worker_registry.get_dead_ids(self)], one positional argument for a
    method that takes none: the call raises [TypeError] before any id is
    read, whatever the registry holds, also when no worker is dead.  No worker
    record is loaded, no declare-died transition is made, the store is left
    as it was. *)
Theorem handle_died_workers_raises (env : Env) (st : Store)
    (registry self : WorkerRegistry.t) :
  WorkerRegistry.handle_died_workers registry self env st = (Raise TypeError, st, []).
Proof. reflexivity. Qed.

(** With a dead worker in the registry: [get_dead_ids] names it, and
    [handle_died_workers] still does nothing for it. *)
Example handle_died_workers_skips_dead_worker :
  let self := worker_registry sample_settings in
  WorkerRegistry.get_dead_ids self (at_time 60) sample_store =
    (Return ["w1"], sample_store, []) ∧
  WorkerRegistry.handle_died_workers self self (at_time 60) sample_store =
    (Raise TypeError, sample_store, []).
Proof. split; by vm_compute. Qed.

(** With no dead worker the claim has the call complete without error. *)
Example handle_died_workers_empty_registry :
  let self := worker_registry sample_settings in
  WorkerRegistry.get_dead_ids self (at_time 60) empty_store =
    (Return [], empty_store, []) ∧
  WorkerRegistry.handle_died_workers self self (at_time 60) empty_store =
    (Raise TypeError, empty_store, []).
Proof. split; by vm_compute. Qed.

Lemma expire_returns (env : Env) (st : Store) (self : ExpiringRegistry.t) :
  ∃ st' cs, ExpiringRegistry.expire self env st = (Return (), st', cs) ∧
            ∀ worker_id, WORKER_DIED worker_id ∉ cs.
Proof.
  rewrite expire_run. cbv zeta.
  destruct (ZSet.zrangebyscore _ _ _); eexists _, _; (split; [done|]); intros w Hin.
  - by apply not_elem_of_nil in Hin.
  - repeat (apply elem_of_cons in Hin as [Hin|Hin]; [done|]).
    by apply not_elem_of_nil in Hin.
Qed.

(** [registry_maintenance] runs the two [expire] and then looks up
    [handle_dead_workers], a name [WorkerRegistry] does not have: whatever
    the two readings of the clock, it ends in [AttributeError], and no
    worker is declared dead. *)
Lemma registry_maintenance_raises (second_reading : Z) (env : Env) (st : Store) :
  ∃ st' cs,
    registry_maintenance second_reading env st = (Raise AttributeError, st', cs) ∧
    ∀ worker_id, WORKER_DIED worker_id ∉ cs.
Proof.
  unfold registry_maintenance, mbind, Redis_bind, get_settings, at_clock.
  destruct (expire_returns env st (finished_task_registry (settings env)))
    as (st1 & cs1 & -> & H1).
  destruct (expire_returns {| settings := settings env; clock := second_reading |}
              st1 (failed_task_registry (settings env)))
    as (st2 & cs2 & -> & H2).
  eexists _, _. split; [reflexivity|].
  intros w. specialize (H1 w). specialize (H2 w).
  rewrite !elem_of_app, !elem_of_nil. tauto.
Qed.

(** ** QueueRegistry *)

Lemma get_names_run (env : Env) (st : Store) (self : QueueRegistry.t) :
  QueueRegistry.get_names self env st =
    (Return (merge_sort String.le (elements (set_of st (QueueRegistry.key self)))),
     st, []).
Proof. reflexivity. Qed.

(** C8. [get_names] reads only and returns the registered queue names, each
    once and no other, in ascending lexicographic order. *)
Theorem get_names_sorted_members (env : Env) (st : Store) (self : QueueRegistry.t) :
  ∃ names,
    QueueRegistry.get_names self env st = (Return names, st, []) ∧
    (∀ name, name ∈ names ↔ name ∈ set_of st (QueueRegistry.key self)) ∧
    NoDup names ∧
    StronglySorted String.le names.
Proof.
  rewrite get_names_run. eexists. split; [done|]. split; [|split].
  - intros name. by rewrite merge_sort_Permutation, elem_of_elements.
  - rewrite merge_sort_Permutation. apply NoDup_elements.
  - apply (StronglySorted_merge_sort _).
Qed.

Example get_names_sample :
  QueueRegistry.get_names (queue_registry sample_settings) (at_time 60) sample_store =
    (Return ["default"; "high"], sample_store, []).
Proof. by vm_compute. Qed.

Lemma queue_add_run (env : Env) (st : Store) (self : QueueRegistry.t)
    (queue : Queue.t) :
  let key := QueueRegistry.key self in
  QueueRegistry.add self queue None env st =
    (Return [], put_set key ({[Queue.name queue]} ∪ set_of st key) st,
     [SADD key (Queue.name queue)]).
Proof. reflexivity. Qed.

Lemma queue_remove_run (env : Env) (st : Store) (self : QueueRegistry.t)
    (queue : Queue.t) :
  let key := QueueRegistry.key self in
  QueueRegistry.remove self queue None env st =
    (Return [], put_set key (set_of st key ∖ {[Queue.name queue]}) st,
     [SREM key (Queue.name queue)]).
Proof. reflexivity. Qed.

(** C9. [add] and [remove], each run with a batch of its own, return without
    error; after [add] the name is a member and a second [add] leaves the
    store as the first left it; after [remove] the name is absent and a
    second [remove] leaves the store as the first left it. *)
Theorem queue_add_remove_idempotent (env env' : Env) (st : Store)
    (self : QueueRegistry.t) (queue : Queue.t) :
  let key := QueueRegistry.key self in
  let name := Queue.name queue in
  (∃ st1,
     QueueRegistry.add self queue None env st = (Return [], st1, [SADD key name]) ∧
     QueueRegistry.add self queue None env' st1 = (Return [], st1, [SADD key name]) ∧
     name ∈ set_of st1 key) ∧
  (∃ st1,
     QueueRegistry.remove self queue None env st = (Return [], st1, [SREM key name]) ∧
     QueueRegistry.remove self queue None env' st1 = (Return [], st1, [SREM key name]) ∧
     name ∉ set_of st1 key).
Proof.
  intros key name. split; eexists; (split; [reflexivity|]).
  - rewrite queue_add_run. fold key name. rewrite set_of_put_set.
    split; [|by apply elem_of_union_l, elem_of_singleton].
    do 2 f_equal. rewrite (assoc_L (∪)), (idemp_L (∪)).
    rewrite <- (set_of_put_set key ({[name]} ∪ set_of st key) st) at 1.
    apply put_set_same.
  - rewrite queue_remove_run. fold key name. rewrite set_of_put_set.
    split; [|apply not_elem_of_difference; right; by apply elem_of_singleton].
    do 2 f_equal. rewrite difference_twice_L.
    rewrite <- (set_of_put_set key (set_of st key ∖ {[name]}) st) at 1.
    apply put_set_same.
Qed.

Example queue_add_twice_sample :
  let self := queue_registry sample_settings in
  let q := {| Queue.name := "low" |} in
  let st1 := (QueueRegistry.add self q None (at_time 1) sample_store).1.2 in
  let st2 := (QueueRegistry.add self q None (at_time 2) st1).1.2 in
  st2 = st1 ∧
  (QueueRegistry.get_names self (at_time 3) st1).1.1 =
    Return ["default"; "high"; "low"].
Proof. split; by vm_compute. Qed.

Example queue_remove_twice_sample :
  let self := queue_registry sample_settings in
  let q := {| Queue.name := "high" |} in
  let st1 := (QueueRegistry.remove self q None (at_time 1) sample_store).1.2 in
  let st2 := (QueueRegistry.remove self q None (at_time 2) st1).1.2 in
  st2 = st1 ∧
  (QueueRegistry.get_names self (at_time 3) st1).1.1 = Return ["default"].
Proof. split; by vm_compute. Qed.

(** * Further properties of the registries *)

(** ** The order of a sorted set under removal *)

#[global] Instance entry_le_antisymm : AntiSymm (=) ZSet.entry_le.
Proof.
  intros [m1 s1] [m2 s2]. unfold ZSet.entry_le. simpl.
  intros [?|[-> H1]] [?|[? H2]]; try lia.
  f_equal. by apply (anti_symm String.le).
Qed.

Lemma StronglySorted_filter {A} (R : relation A) (P : A → Prop)
    `{!∀ x, Decision (P x)} (l : list A) :
  StronglySorted R l → StronglySorted R (filter P l).
Proof.
  induction 1 as [|x l Hs IH Hall]; [constructor|].
  destruct (decide (P x)).
  - rewrite filter_cons_True by done. constructor; [done|].
    rewrite Forall_forall in Hall. apply Forall_forall.
    intros y [_ Hy]%list_elem_of_filter. by apply Hall.
  - by rewrite filter_cons_False.
Qed.

Lemma filter_ext_elem_of {A} (P Q : A → Prop) `{!∀ x, Decision (P x)}
    `{!∀ x, Decision (Q x)} (l : list A) :
  (∀ x, x ∈ l → P x ↔ Q x) → filter P l = filter Q l.
Proof.
  induction l as [|x l IH]; intros Hext; [done|].
  assert (filter P l = filter Q l) as IH'.
  { apply IH. intros y Hy. apply Hext. by right. }
  destruct (decide (P x)) as [HP|HP].
  - rewrite !filter_cons_True; [by f_equal|by apply Hext; [left|]|done].
  - rewrite !filter_cons_False; [done| |done].
    intros HQ. apply HP, Hext; [left|done].
Qed.

Lemma filter_fmap_fst {A B} (Q : A → Prop) `{!∀ x, Decision (Q x)}
    (l : list (A * B)) :
  (filter (λ e, Q e.1) l).*1 = filter Q l.*1.
Proof.
  induction l as [|[a b] l IH]; [done|]. csimpl.
  destruct (decide (Q a)).
  - rewrite !filter_cons_True by done. csimpl. by f_equal.
  - by rewrite !filter_cons_False.
Qed.

Lemma entries_filter (P : string * Z → Prop) `{!∀ x, Decision (P x)}
    (z : gmap string Z) :
  ZSet.entries (filter P z) = filter P (ZSet.entries z).
Proof.
  apply (StronglySorted_unique ZSet.entry_le).
  - apply entries_sorted.
  - apply StronglySorted_filter, entries_sorted.
  - apply NoDup_Permutation.
    + rewrite entries_Permutation. apply NoDup_map_to_list.
    + apply NoDup_filter. rewrite entries_Permutation. apply NoDup_map_to_list.
    + intros [id s]. rewrite list_elem_of_filter, !elem_of_entries.
      rewrite map_lookup_filter_Some. tauto.
Qed.

Lemma entries_delete (id : string) (z : gmap string Z) :
  ZSet.entries (delete id z) = filter (λ e, e.1 ≠ id) (ZSet.entries z).
Proof.
  rewrite <- entries_filter. f_equal. apply map_eq. intros k.
  rewrite map_lookup_filter. destruct (decide (k = id)) as [->|Hne].
  - rewrite lookup_delete_eq. destruct (z !! id); simpl; [|done].
    by rewrite option_guard_False by (simpl; congruence).
  - rewrite lookup_delete_ne by done. destruct (z !! k); simpl; [|done].
    by rewrite option_guard_True.
Qed.

Lemma zadd_upsert (id : string) (s : Z) (ch : bool) (z : gmap string Z) :
  (ZSet.zadd id s false ch z).1 = <[id := s]> z.
Proof.
  unfold ZSet.zadd. destruct (z !! id) as [old|] eqn:Hold; [|done].
  case_bool_decide; [|done]. subst. simpl. by rewrite insert_id.
Qed.

(** ** ExpiringRegistry: add, get_task_ids and their interplay with expire *)

Lemma zadd_run (env : Env) (st : Store) (key id : string) :
  execute [ZADD key id (clock env) false false] env st =
    (Return (), put_zset key (<[id := clock env]> (zset_of st key)) st,
     [ZADD key id (clock env) false false]).
Proof.
  unfold execute, for_each, mbind, Redis_bind, issue, perform, mret, Redis_ret.
  rewrite <- (zadd_upsert id (clock env) false (zset_of st key)).
  by destruct (ZSet.zadd id (clock env) false false (zset_of st key)).
Qed.

Lemma expiring_add_run (env : Env) (st : Store) (self : ExpiringRegistry.t)
    (task : Task.t) :
  let key := ExpiringRegistry.key self in
  ExpiringRegistry.add self task None env st =
    (Return [], put_zset key (<[Task.id task := clock env]> (zset_of st key)) st,
     [ZADD key (Task.id task) (clock env) false false]).
Proof.
  intros key. unfold ExpiringRegistry.add, atomic_pipeline. fold key.
  unfold mbind at 1. unfold Redis_bind at 1.
  unfold mbind at 1. unfold Redis_bind at 1. unfold connection.ftime.
  cbn [mret Redis_ret app]. unfold mbind at 1. unfold Redis_bind at 1.
  by rewrite zadd_run.
Qed.

Lemma get_task_ids_run (env : Env) (st : Store) (self : ExpiringRegistry.t) :
  ExpiringRegistry.get_task_ids self env st =
    (Return (ZSet.entries (zset_of st (ExpiringRegistry.key self))).*1, st, []).
Proof.
  unfold ExpiringRegistry.get_task_ids, fmap, Redis_fmap, connection.zrange,
    read, decode_list. by rewrite zrange_all.
Qed.

Lemma ids_sorted_by_score (z : gmap string Z) (i j : nat) wi wj si sj :
  (i < j)%nat →
  (ZSet.entries z).*1 !! i = Some wi → (ZSet.entries z).*1 !! j = Some wj →
  z !! wi = Some si → z !! wj = Some sj →
  si < sj ∨ (si = sj ∧ String.le wi wj).
Proof.
  intros Hij Hi Hj Hsi Hsj. rewrite list_lookup_fmap in Hi, Hj.
  destruct (ZSet.entries z !! i) as [[wi' si']|] eqn:Hei; simplify_eq/=.
  destruct (ZSet.entries z !! j) as [[wj' sj']|] eqn:Hej; simplify_eq/=.
  pose proof (list_elem_of_lookup_2 _ _ _ Hei) as Hini.
  pose proof (list_elem_of_lookup_2 _ _ _ Hej) as Hinj.
  apply elem_of_entries in Hini, Hinj. simplify_eq.
  apply (StronglySorted_lookup_lt _ _ _ _ _ _ (entries_sorted z) Hij Hei Hej).
Qed.

(** X1. [get_task_ids] reads only and returns every id of the registry
    once, oldest first: ascending by score, ids of one score in ascending
    order of their names. *)
Theorem get_task_ids_oldest_first (env : Env) (st : Store)
    (self : ExpiringRegistry.t) :
  let z := zset_of st (ExpiringRegistry.key self) in
  ∃ ids,
    ExpiringRegistry.get_task_ids self env st = (Return ids, st, []) ∧
    (∀ id, id ∈ ids ↔ is_Some (z !! id)) ∧
    NoDup ids ∧
    (∀ i j wi wj si sj,
       (i < j)%nat → ids !! i = Some wi → ids !! j = Some wj →
       z !! wi = Some si → z !! wj = Some sj →
       si < sj ∨ (si = sj ∧ String.le wi wj)).
Proof.
  intros z. rewrite get_task_ids_run. eexists. split; [done|].
  split; [apply elem_of_entries_ids|]. split; [apply NoDup_entries_ids|].
  apply ids_sorted_by_score.
Qed.

(** X2. [add] with a batch of its own returns without error, also for a task
    that is in the registry already: afterwards the task has the time of the
    call as its score, every other entry is as before, and [get_task_ids]
    lists the ids that were there and the task's, each once.  Other keys,
    sets, lists and task records are untouched. *)
Theorem expiring_add_upserts (env env' : Env) (st : Store)
    (self : ExpiringRegistry.t) (task : Task.t) :
  let key := ExpiringRegistry.key self in
  let id := Task.id task in
  ∃ st' ids,
    ExpiringRegistry.add self task None env st =
      (Return [], st', [ZADD key id (clock env) false false]) ∧
    zset_of st' key !! id = Some (clock env) ∧
    (∀ other, other ≠ id → zset_of st' key !! other = zset_of st key !! other) ∧
    ExpiringRegistry.get_task_ids self env' st' = (Return ids, st', []) ∧
    (∀ x, x ∈ ids ↔ x = id ∨ is_Some (zset_of st key !! x)) ∧
    NoDup ids ∧
    (∀ key', key' ≠ key → zset_of st' key' = zset_of st key') ∧
    sets st' = sets st ∧ lists st' = lists st ∧ tasks st' = tasks st.
Proof.
  intros key id. rewrite expiring_add_run. fold key id. eexists _, _.
  split; [done|]. rewrite get_task_ids_run, zset_of_put_zset. fold key.
  rewrite zset_of_put_zset.
  split; [by rewrite lookup_insert_eq|].
  split; [by intros other Hne; rewrite lookup_insert_ne|].
  split; [done|]. split.
  { intros x. rewrite elem_of_entries_ids. destruct (decide (x = id)) as [->|Hne].
    - rewrite lookup_insert_eq. split; [by left|by eexists].
    - rewrite lookup_insert_ne by done. split; [by right|by intros [|]]. }
  split; [apply NoDup_entries_ids|].
  split; [by intros key' Hne; apply zset_of_put_zset_ne|].
  apply put_zset_frame.
Qed.

Lemma delete_records_nil (t : gmap string TaskRecord) : delete_records [] t = t.
Proof.
  apply map_eq. intros id. rewrite lookup_delete_records.
  rewrite decide_False; [done|]. apply not_elem_of_nil.
Qed.

(** The store [expire] leaves, in one form for both branches. *)
Lemma expire_effect (env : Env) (st : Store) (self : ExpiringRegistry.t) :
  let key := ExpiringRegistry.key self in
  let cutoff := clock env - EXPIRING_REGISTRIES_TTL (settings env) in
  let z := zset_of st key in
  let removed := ZSet.zrangebyscore (Score 0) (Score cutoff) z in
  ∃ st' cs,
    ExpiringRegistry.expire self env st = (Return (), st', cs) ∧
    zset_of st' key = filter (λ e, ¬ in_range (Score 0) (Score cutoff) e.2) z ∧
    tasks st' = delete_records removed (tasks st) ∧
    (∀ key', key' ≠ key → zset_of st' key' = zset_of st key') ∧
    sets st' = sets st ∧ lists st' = lists st.
Proof.
  intros key cutoff z removed. rewrite expire_run. fold key cutoff z removed.
  destruct removed as [|id0 l] eqn:Hrem.
  - exists st, []. split; [done|]. split; [|by rewrite delete_records_nil].
    symmetry. apply map_filter_id. intros id s Hs Hr.
    apply zrangebyscore_nil in Hrem. by apply (Hrem id s Hs).
  - rewrite <- Hrem. eexists _, _. split; [done|].
    rewrite zset_of_put_tasks, zset_of_put_zset. split; [done|].
    cbn [tasks sets lists put_tasks].
    destruct (put_zset_frame key
      (ZSet.zremrangebyscore (Score 0) (Score cutoff) z).1 st) as (Hs & Hl & Ht).
    rewrite Ht. split; [done|]. split; [|done].
    intros key' Hne. by rewrite zset_of_put_tasks, zset_of_put_zset_ne.
Qed.

Lemma lookup_kept (cutoff : Z) (z : gmap string Z) (id : string) :
  filter (λ e : string * Z, ¬ in_range (Score 0) (Score cutoff) e.2) z !! id =
    s ← z !! id; if in_range (Score 0) (Score cutoff) s then None else Some s.
Proof. apply (lookup_zremrangebyscore (Score 0) (Score cutoff)). Qed.

(** X3. A task added at time [T] and swept by [expire] at time [now]: it is
    still in the registry with score [T] while [now < T + TTL]; once
    [now >= T + TTL] (and [T >= 0]) it is gone from the registry and its
    record is deleted. *)
Theorem add_then_expire (env1 env2 : Env) (st : Store)
    (self : ExpiringRegistry.t) (task : Task.t) :
  let key := ExpiringRegistry.key self in
  let id := Task.id task in
  let T := clock env1 in
  let now := clock env2 in
  let ttl := EXPIRING_REGISTRIES_TTL (settings env2) in
  ∃ st1 cs1 st2 cs2,
    ExpiringRegistry.add self task None env1 st = (Return [], st1, cs1) ∧
    ExpiringRegistry.expire self env2 st1 = (Return (), st2, cs2) ∧
    (now < T + ttl →
       zset_of st2 key !! id = Some T ∧ tasks st2 !! id = tasks st !! id) ∧
    (0 ≤ T → T + ttl ≤ now →
       zset_of st2 key !! id = None ∧ tasks st2 !! id = None ∧
       TASK_DELETE_MANY
         (ZSet.zrangebyscore (Score 0) (Score (now - ttl)) (zset_of st1 key)) ∈ cs2).
Proof.
  intros key id T now ttl.
  rewrite expiring_add_run. fold key id T.
  set (st1 := put_zset key (<[id := T]> (zset_of st key)) st).
  assert (Hid : zset_of st1 key !! id = Some T)
    by (unfold st1; by rewrite zset_of_put_zset, lookup_insert_eq).
  assert (Htasks : tasks st1 = tasks st) by apply put_zset_frame.
  destruct (expire_effect env2 st1 self) as (st2 & cs2 & Hexp & Hz & Ht & _).
  fold key now ttl in Hz, Ht.
  eexists st1, _, st2, cs2. split; [done|]. split; [done|].
  assert (Hmem : id ∈ ZSet.zrangebyscore (Score 0) (Score (now - ttl))
                   (zset_of st1 key) ↔ 0 ≤ T ≤ now - ttl).
  { rewrite elem_of_zrangebyscore. setoid_rewrite in_range_scores. split.
    - intros (s & Hs & ?). by simplify_eq.
    - intros ?. by exists T. }
  rewrite Hz, Ht, lookup_kept, Hid, lookup_delete_records, Htasks. simpl. split.
  - intros Hlt. destruct (in_range _ _ T) eqn:Hr.
    { assert (0 ≤ T ≤ now - ttl) by (apply in_range_scores; by rewrite Hr). lia. }
    split; [done|]. rewrite decide_False; [done|]. rewrite Hmem. lia.
  - intros H0 Hle. assert (0 ≤ T ≤ now - ttl) as Hin by lia.
    pose proof Hin as Hr. apply in_range_scores in Hr.
    destruct (in_range _ _ T); [|done]. split; [done|].
    split; [by rewrite decide_True by by apply Hmem|].
    rewrite expire_run in Hexp. fold key now ttl in Hexp.
    apply Hmem in Hin.
    destruct (ZSet.zrangebyscore (Score 0) (Score (now - ttl)) (zset_of st1 key))
      as [|x l] eqn:Hrem; [by apply not_elem_of_nil in Hin|].
    injection Hexp as _ <-. right. left.
Qed.

(** X4. A second [expire] whose cutoff is not later than the first one's
    finds nothing to do: it returns with the store as the first sweep left
    it and makes no call. *)
Theorem expire_twice (env env' : Env) (st : Store) (self : ExpiringRegistry.t) :
  clock env' - EXPIRING_REGISTRIES_TTL (settings env') ≤
    clock env - EXPIRING_REGISTRIES_TTL (settings env) →
  ∃ st1 cs1,
    ExpiringRegistry.expire self env st = (Return (), st1, cs1) ∧
    ExpiringRegistry.expire self env' st1 = (Return (), st1, []).
Proof.
  intros Hle. destruct (expire_effect env st self) as (st1 & cs1 & Hexp & Hz & _).
  exists st1, cs1. split; [done|]. rewrite expire_run. cbv zeta.
  assert (ZSet.zrangebyscore (Score 0)
            (Score (clock env' - EXPIRING_REGISTRIES_TTL (settings env')))
            (zset_of st1 (ExpiringRegistry.key self)) = []) as ->; [|done].
  apply zrangebyscore_nil. intros id s Hs Hr. rewrite Hz in Hs.
  apply map_lookup_filter_Some in Hs as [_ Hout]. apply Hout. simpl.
  apply in_range_scores. apply in_range_scores in Hr. lia.
Qed.

Lemma expire_twice_witness :
  ∃ st1 cs1,
    ExpiringRegistry.expire (finished_task_registry sample_settings)
      (at_time 200) sample_store = (Return (), st1, cs1) ∧
    ExpiringRegistry.expire (finished_task_registry sample_settings)
      (at_time 180) st1 = (Return (), st1, []).
Proof.
  apply (expire_twice (at_time 200) (at_time 180)). simpl. lia.
Defined.

(** X5. [expire] reads and removes the scores from 0 up: an entry with a
    score below zero is never removed, whatever the clock shows, and its
    record is never deleted. *)
Theorem expire_keeps_negative_scores (env : Env) (st : Store)
    (self : ExpiringRegistry.t) (id : string) (s : Z) :
  zset_of st (ExpiringRegistry.key self) !! id = Some s →
  s < 0 →
  ∃ st' cs,
    ExpiringRegistry.expire self env st = (Return (), st', cs) ∧
    zset_of st' (ExpiringRegistry.key self) !! id = Some s ∧
    tasks st' !! id = tasks st !! id.
Proof.
  intros Hs Hneg. destruct (expire_effect env st self)
    as (st' & cs & Hexp & Hz & Ht & _).
  exists st', cs. split; [done|]. rewrite Hz, Ht, lookup_kept, Hs. simpl.
  destruct (in_range _ _ s) eqn:Hr.
  { assert (0 ≤ s ≤ clock env - EXPIRING_REGISTRIES_TTL (settings env))
      by (apply in_range_scores; by rewrite Hr). lia. }
  split; [done|]. rewrite lookup_delete_records, decide_False; [done|].
  rewrite elem_of_zrangebyscore. setoid_rewrite in_range_scores.
  intros (s' & ? & ?). simplify_eq. lia.
Qed.

Lemma expire_keeps_negative_scores_witness :
  ∃ st' cs,
    ExpiringRegistry.expire (finished_task_registry sample_settings)
      (at_time 100000) negative_score_store = (Return (), st', cs) ∧
    zset_of st' "rq:finished_tasks" !! "tn" = Some (-5) ∧
    tasks st' !! "tn" = tasks negative_score_store !! "tn".
Proof.
  apply (expire_keeps_negative_scores (at_time 100000) negative_score_store
           (finished_task_registry sample_settings) "tn" (-5)).
  - by vm_compute.
  - lia.
Defined.

(** X6. [expire] keeps the order of what it leaves: [get_task_ids] after the
    sweep is [get_task_ids] before it without the removed ids. *)
Theorem expire_preserves_order (env env1 env2 : Env) (st : Store)
    (self : ExpiringRegistry.t) :
  let key := ExpiringRegistry.key self in
  let cutoff := clock env - EXPIRING_REGISTRIES_TTL (settings env) in
  let removed := ZSet.zrangebyscore (Score 0) (Score cutoff) (zset_of st key) in
  ∃ before st' cs,
    ExpiringRegistry.get_task_ids self env1 st = (Return before, st, []) ∧
    ExpiringRegistry.expire self env st = (Return (), st', cs) ∧
    ExpiringRegistry.get_task_ids self env2 st' =
      (Return (filter (λ id, id ∉ removed) before), st', []).
Proof.
  intros key cutoff removed.
  destruct (expire_effect env st self) as (st' & cs & Hexp & Hz & _).
  fold key cutoff in Hz. eexists _, st', cs.
  rewrite !get_task_ids_run. fold key. split; [done|]. split; [done|].
  rewrite Hz, entries_filter. do 2 f_equal.
  rewrite <- (filter_fmap_fst (λ id, id ∉ removed)).
  rewrite (filter_ext_elem_of
             (λ e : string * Z, ¬ in_range (Score 0) (Score cutoff) e.2)
             (λ e, e.1 ∉ removed)); [done|].
  intros [id s] Hin. apply elem_of_entries in Hin. simpl.
  unfold removed. rewrite elem_of_zrangebyscore. split.
  - intros Hout (s' & Hs' & Hr). fold key in Hs'. by simplify_eq.
  - intros Hout Hr. apply Hout. by exists s.
Qed.

(** ** The registries keep to their own keys *)

#[global] Instance RedisKey_inj (settings : Settings) : Inj (=) (=) (RedisKey settings).
Proof. unfold RedisKey. apply _. Qed.

Lemma registry_keys_distinct (settings : Settings) :
  ExpiringRegistry.key (finished_task_registry settings) ≠
    ExpiringRegistry.key (failed_task_registry settings) ∧
  ExpiringRegistry.key (finished_task_registry settings) ≠
    WorkerRegistry.key (worker_registry settings) ∧
  ExpiringRegistry.key (failed_task_registry settings) ≠
    WorkerRegistry.key (worker_registry settings).
Proof. repeat split; intros Heq; by apply (inj (RedisKey settings)) in Heq. Qed.

(** X7. Sweeping one expiring registry touches neither the other one nor the
    liveness registry: [expire] on the finished-task registry leaves the
    failed-task registry and the workers as they were, and likewise the other
    way round; sets and lists are untouched by both. *)
Theorem expire_leaves_other_registries (env : Env) (st : Store) (cfg : Settings) :
  let fin := ExpiringRegistry.key (finished_task_registry cfg) in
  let fail := ExpiringRegistry.key (failed_task_registry cfg) in
  let workers := WorkerRegistry.key (worker_registry cfg) in
  (∃ st' cs,
     ExpiringRegistry.expire (finished_task_registry cfg) env st =
       (Return (), st', cs) ∧
     zset_of st' fail = zset_of st fail ∧
     zset_of st' workers = zset_of st workers ∧
     sets st' = sets st ∧ lists st' = lists st) ∧
  (∃ st' cs,
     ExpiringRegistry.expire (failed_task_registry cfg) env st =
       (Return (), st', cs) ∧
     zset_of st' fin = zset_of st fin ∧
     zset_of st' workers = zset_of st workers ∧
     sets st' = sets st ∧ lists st' = lists st).
Proof.
  intros fin fail workers.
  destruct (registry_keys_distinct cfg) as (H1 & H2 & H3). split.
  - destruct (expire_effect env st (finished_task_registry cfg))
      as (st' & cs & Hexp & _ & _ & Hframe & Hs & Hl).
    exists st', cs. split; [done|]. split; [|split; [|done]].
    + apply Hframe. by apply not_eq_sym.
    + apply Hframe. by apply not_eq_sym.
  - destruct (expire_effect env st (failed_task_registry cfg))
      as (st' & cs & Hexp & _ & _ & Hframe & Hs & Hl).
    exists st', cs. split; [done|]. split; [|split; [|done]].
    + by apply Hframe.
    + apply Hframe. by apply not_eq_sym.
Qed.

(** ** WorkerRegistry: add, remove and their interplay with heartbeat *)

Lemma worker_add_run (env : Env) (st : Store) (self : WorkerRegistry.t)
    (worker : Worker.t) :
  let key := WorkerRegistry.key self in
  WorkerRegistry.add self worker None env st =
    (Return [], put_zset key (<[Worker.id worker := clock env]> (zset_of st key)) st,
     [ZADD key (Worker.id worker) (clock env) false false]).
Proof.
  intros key. unfold WorkerRegistry.add, atomic_pipeline. fold key.
  unfold mbind at 1. unfold Redis_bind at 1.
  unfold mbind at 1. unfold Redis_bind at 1. unfold connection.ftime.
  cbn [mret Redis_ret app]. unfold mbind at 1. unfold Redis_bind at 1.
  by rewrite zadd_run.
Qed.

Lemma zrem_delete (id : string) (z : gmap string Z) :
  (ZSet.zrem id z).1 = delete id z.
Proof.
  unfold ZSet.zrem. destruct (z !! id) eqn:Hz; [done|]. simpl.
  by rewrite delete_id.
Qed.

Lemma put_zset_twice (key : string) (z : gmap string Z) (st : Store) :
  put_zset key z (put_zset key z st) = put_zset key z st.
Proof.
  unfold put_zset at 1. by rewrite zset_of_put_zset, decide_True.
Qed.

Lemma worker_remove_run (env : Env) (st : Store) (self : WorkerRegistry.t)
    (worker : Worker.t) :
  let key := WorkerRegistry.key self in
  WorkerRegistry.remove self worker None env st =
    (Return [], put_zset key (delete (Worker.id worker) (zset_of st key)) st,
     [ZREM key (Worker.id worker)]).
Proof.
  intros key. unfold WorkerRegistry.remove, atomic_pipeline. fold key.
  unfold mbind at 1. unfold Redis_bind at 1. cbn [mret Redis_ret app].
  unfold execute, for_each, mbind, Redis_bind, issue, perform, mret, Redis_ret.
  rewrite <- zrem_delete.
  by destruct (ZSet.zrem (Worker.id worker) (zset_of st key)).
Qed.

Lemma get_worker_ids_run (env : Env) (st : Store) (self : WorkerRegistry.t) :
  WorkerRegistry.get_worker_ids self env st =
    (Return (ZSet.entries (zset_of st (WorkerRegistry.key self))).*1, st, []).
Proof.
  unfold WorkerRegistry.get_worker_ids, fmap, Redis_fmap,
    connection.zrangebyscore, read, decode_list. by rewrite zrangebyscore_all.
Qed.

(** X8. [WorkerRegistry.add] with a batch of its own returns without error,
    also for a worker that is registered already: afterwards the worker's
    score is the time of the call, the other workers keep theirs, and
    [get_worker_ids] lists the ids that were there and the worker's, each
    once. *)
Theorem worker_add_upserts (env env' : Env) (st : Store)
    (self : WorkerRegistry.t) (worker : Worker.t) :
  let key := WorkerRegistry.key self in
  let id := Worker.id worker in
  ∃ st' ids,
    WorkerRegistry.add self worker None env st =
      (Return [], st', [ZADD key id (clock env) false false]) ∧
    zset_of st' key !! id = Some (clock env) ∧
    (∀ other, other ≠ id → zset_of st' key !! other = zset_of st key !! other) ∧
    WorkerRegistry.get_worker_ids self env' st' = (Return ids, st', []) ∧
    (∀ x, x ∈ ids ↔ x = id ∨ is_Some (zset_of st key !! x)) ∧
    NoDup ids ∧
    (∀ key', key' ≠ key → zset_of st' key' = zset_of st key') ∧
    sets st' = sets st ∧ lists st' = lists st ∧ tasks st' = tasks st.
Proof.
  intros key id. rewrite worker_add_run. fold key id. eexists _, _.
  split; [done|]. rewrite get_worker_ids_run, zset_of_put_zset. fold key.
  rewrite zset_of_put_zset.
  split; [by rewrite lookup_insert_eq|].
  split; [by intros other Hne; rewrite lookup_insert_ne|].
  split; [done|]. split.
  { intros x. rewrite elem_of_entries_ids. destruct (decide (x = id)) as [->|Hne].
    - rewrite lookup_insert_eq. split; [by left|by eexists].
    - rewrite lookup_insert_ne by done. split; [by right|by intros [|]]. }
  split; [apply NoDup_entries_ids|].
  split; [by intros key' Hne; apply zset_of_put_zset_ne|].
  apply put_zset_frame.
Qed.

(** X9. [WorkerRegistry.remove] with a batch of its own returns without
    error whether or not the worker is registered.  Afterwards the worker is
    absent, [get_worker_ids] is the list from before without the worker's id
    (the others in the order they had), and a second [remove] leaves the
    store as the first left it.  Other keys, sets, lists and task records,
    the worker's running-task slot among them, are untouched. *)
Theorem worker_remove_effect (env env1 env2 env' : Env) (st : Store)
    (self : WorkerRegistry.t) (worker : Worker.t) :
  let key := WorkerRegistry.key self in
  let id := Worker.id worker in
  ∃ before st',
    WorkerRegistry.get_worker_ids self env1 st = (Return before, st, []) ∧
    WorkerRegistry.remove self worker None env st = (Return [], st', [ZREM key id]) ∧
    zset_of st' key !! id = None ∧
    WorkerRegistry.get_worker_ids self env2 st' =
      (Return (filter (λ x, x ≠ id) before), st', []) ∧
    WorkerRegistry.remove self worker None env' st' = (Return [], st', [ZREM key id]) ∧
    (∀ key', key' ≠ key → zset_of st' key' = zset_of st key') ∧
    sets st' = sets st ∧ lists st' = lists st ∧ tasks st' = tasks st.
Proof.
  intros key id.
  exists (ZSet.entries (zset_of st key)).*1,
         (put_zset key (delete id (zset_of st key)) st).
  rewrite !worker_remove_run, !get_worker_ids_run. fold key id.
  rewrite !zset_of_put_zset.
  split; [done|]. split; [done|].
  split; [apply lookup_delete_eq|]. split.
  { by rewrite entries_delete, <- (filter_fmap_fst (λ x, x ≠ id)). }
  split.
  { by rewrite delete_delete_eq, put_zset_twice. }
  split; [by intros key' Hne; apply zset_of_put_zset_ne|].
  apply put_zset_frame.
Qed.

(** X10. A worker that registers with [add] and sends [heartbeat] at another
    reading of the clock is accepted: [heartbeat] returns and the worker's
    score is the time of the heartbeat. *)
Theorem worker_add_then_heartbeat (env1 env2 : Env) (st : Store)
    (self : WorkerRegistry.t) (worker : Worker.t) :
  clock env2 ≠ clock env1 →
  ∃ st1 cs1 st2 cs2,
    WorkerRegistry.add self worker None env1 st = (Return [], st1, cs1) ∧
    WorkerRegistry.heartbeat self worker env2 st1 = (Return (), st2, cs2) ∧
    zset_of st2 (WorkerRegistry.key self) !! Worker.id worker = Some (clock env2).
Proof.
  intros Hne. rewrite worker_add_run. cbv zeta. eexists _, _.
  rewrite heartbeat_run. cbv zeta.
  rewrite zset_of_put_zset, lookup_insert_eq.
  rewrite bool_decide_eq_false_2 by done. eexists _, _.
  split; [done|]. split; [done|].
  by rewrite zset_of_put_zset, lookup_insert_eq.
Qed.

Lemma worker_add_then_heartbeat_witness :
  ∃ st1 cs1 st2 cs2,
    WorkerRegistry.add (worker_registry sample_settings) {| Worker.id := "w3" |}
      None (at_time 70) sample_store = (Return [], st1, cs1) ∧
    WorkerRegistry.heartbeat (worker_registry sample_settings)
      {| Worker.id := "w3" |} (at_time 75) st1 = (Return (), st2, cs2) ∧
    zset_of st2 "rq:workers" !! "w3" = Some 75.
Proof.
  apply (worker_add_then_heartbeat (at_time 70) (at_time 75) sample_store
           (worker_registry sample_settings) {| Worker.id := "w3" |}).
  simpl. lia.
Defined.

(** X11. A worker that has been removed from the registry cannot heartbeat
    its way back: after [remove], [heartbeat] raises [NoSuchWorkerError] and
    the worker stays absent. *)
Theorem worker_remove_then_heartbeat (env1 env2 : Env) (st : Store)
    (self : WorkerRegistry.t) (worker : Worker.t) :
  ∃ st1 cs1 cs2,
    WorkerRegistry.remove self worker None env1 st = (Return [], st1, cs1) ∧
    WorkerRegistry.heartbeat self worker env2 st1 =
      (Raise NoSuchWorkerError, st1, cs2) ∧
    zset_of st1 (WorkerRegistry.key self) !! Worker.id worker = None.
Proof.
  rewrite worker_remove_run. cbv zeta. eexists _, _, _. split; [done|].
  rewrite heartbeat_run. cbv zeta.
  rewrite zset_of_put_zset, lookup_delete_eq. done.
Qed.

(** ** WorkerRegistry: heartbeats and dead workers *)

Lemma omap_ext_all {A B} (f g : A → option B) (l : list A) :
  (∀ x, f x = g x) → omap f l = omap g l.
Proof.
  intros Hfg. induction l as [|x l IH]; [done|]. csimpl. by rewrite Hfg, IH.
Qed.

(** X12. The three outcomes of [heartbeat].  For an id that is absent, and
    for an id whose score is already the time the clock shows, it raises
    [NoSuchWorkerError] and the store is as before.  For an id present with
    another score it returns, and the id has the time of the call as its
    score.  In each case the one call issued is the [ZADD] with [XX] and
    [CH]. *)
Theorem heartbeat_outcome (env : Env) (st : Store) (self : WorkerRegistry.t)
    (worker : Worker.t) :
  let key := WorkerRegistry.key self in
  let id := Worker.id worker in
  let now := clock env in
  ∃ r st',
    WorkerRegistry.heartbeat self worker env st =
      (r, st', [ZADD key id now true true]) ∧
    (r = Raise NoSuchWorkerError ↔
       zset_of st key !! id = None ∨ zset_of st key !! id = Some now) ∧
    (r = Raise NoSuchWorkerError → st' = st) ∧
    (r = Return () ↔ ∃ old, zset_of st key !! id = Some old ∧ old ≠ now) ∧
    (r = Return () → zset_of st' key !! id = Some now).
Proof.
  intros key id now. rewrite heartbeat_run. fold key id now.
  destruct (zset_of st key !! id) as [old|] eqn:Hold.
  - case_bool_decide as Heq; eexists _, _; (split; [done|]).
    + subst old. split; [by split; [right|]|]. split; [done|].
      split; [|done]. split; [done|]. by intros (old & ? & ?); simplify_eq.
    + split; [split; [done|intros [?|?]; congruence]|]. split; [done|].
      split; [by split; [exists old|]|]. intros _.
      by rewrite zset_of_put_zset, lookup_insert_eq.
  - eexists _, _. split; [done|]. split; [by split; [left|]|]. split; [done|].
    split; [|done]. split; [done|]. by intros (old & ? & ?).
Qed.

(** X13. A heartbeat that is accepted keeps the worker off the dead list for
    the length of the timeout: after [heartbeat] returned at time [now],
    [get_dead_ids] at any time [later] with [later - HEARTBEAT_TIMEOUT < now]
    does not return the worker. *)
Theorem heartbeat_keeps_worker_alive (env env' : Env) (st : Store)
    (self : WorkerRegistry.t) (worker : Worker.t) :
  (WorkerRegistry.heartbeat self worker env st).1.1 = Return () →
  clock env' - WORKER_HEARTBEAT_TIMEOUT (settings env') < clock env →
  ∃ st' cs dead,
    WorkerRegistry.heartbeat self worker env st = (Return (), st', cs) ∧
    WorkerRegistry.get_dead_ids self env' st' = (Return dead, st', []) ∧
    Worker.id worker ∉ dead.
Proof.
  rewrite heartbeat_run. cbv zeta. intros Hret Hlt.
  destruct (zset_of st (WorkerRegistry.key self) !! Worker.id worker)
    as [old|] eqn:Hold; [|done].
  case_bool_decide; [done|]. eexists _, _, _. split; [done|].
  rewrite get_dead_ids_run. split; [done|].
  rewrite elem_of_zrangebyscore, zset_of_put_zset.
  intros (s & Hs & Hr). rewrite lookup_insert_eq in Hs. simplify_eq.
  apply in_range_upto in Hr. lia.
Qed.

Lemma heartbeat_keeps_worker_alive_witness :
  ∃ st' cs dead,
    WorkerRegistry.heartbeat (worker_registry sample_settings)
      {| Worker.id := "w1" |} (at_time 60) sample_store = (Return (), st', cs) ∧
    WorkerRegistry.get_dead_ids (worker_registry sample_settings)
      (at_time 89) st' = (Return dead, st', []) ∧
    "w1" ∉ dead.
Proof.
  apply (heartbeat_keeps_worker_alive (at_time 60) (at_time 89) sample_store
           (worker_registry sample_settings) {| Worker.id := "w1" |}).
  - by vm_compute.
  - simpl. lia.
Defined.

(** X14. The dead workers are registered workers, in the order
    [get_worker_ids] gives them: the list of [get_dead_ids] is a sublist of
    the list of [get_worker_ids] and names no worker twice. *)
Theorem get_dead_ids_sublist_worker_ids (env env' : Env) (st : Store)
    (self : WorkerRegistry.t) :
  ∃ dead ids,
    WorkerRegistry.get_dead_ids self env st = (Return dead, st, []) ∧
    WorkerRegistry.get_worker_ids self env' st = (Return ids, st, []) ∧
    dead `sublist_of` ids ∧
    NoDup dead ∧
    (length dead ≤ length ids)%nat.
Proof.
  rewrite get_dead_ids_run, get_worker_ids_run. eexists _, _.
  split; [done|]. split; [done|].
  assert (Hsub : ZSet.zrangebyscore NegInf
                   (Score (clock env - WORKER_HEARTBEAT_TIMEOUT (settings env)))
                   (zset_of st (WorkerRegistry.key self)) `sublist_of`
                 (ZSet.entries (zset_of st (WorkerRegistry.key self))).*1).
  { unfold ZSet.zrangebyscore. apply fmap_sublist, sublist_filter. }
  split; [done|]. split.
  - eapply sublist_NoDup; [apply NoDup_entries_ids|exact Hsub].
  - by apply sublist_length.
Qed.

(** X15. Without a heartbeat a dead worker stays dead: every id returned by
    [get_dead_ids] is returned again at any reading with a cutoff
    [now - HEARTBEAT_TIMEOUT] that is not earlier. *)
Theorem get_dead_ids_monotone (env env' : Env) (st : Store)
    (self : WorkerRegistry.t) :
  clock env - WORKER_HEARTBEAT_TIMEOUT (settings env) ≤
    clock env' - WORKER_HEARTBEAT_TIMEOUT (settings env') →
  ∃ dead dead',
    WorkerRegistry.get_dead_ids self env st = (Return dead, st, []) ∧
    WorkerRegistry.get_dead_ids self env' st = (Return dead', st, []) ∧
    dead ⊆ dead'.
Proof.
  intros Hle. rewrite !get_dead_ids_run. eexists _, _.
  split; [done|]. split; [done|]. intros id.
  rewrite !elem_of_zrangebyscore. setoid_rewrite in_range_upto.
  intros (s & Hs & ?). exists s. split; [done|lia].
Qed.

Lemma get_dead_ids_monotone_witness :
  ∃ dead dead',
    WorkerRegistry.get_dead_ids (worker_registry sample_settings)
      (at_time 40) sample_store = (Return dead, sample_store, []) ∧
    WorkerRegistry.get_dead_ids (worker_registry sample_settings)
      (at_time 90) sample_store = (Return dead', sample_store, []) ∧
    dead ⊆ dead'.
Proof.
  apply (get_dead_ids_monotone (at_time 40) (at_time 90)). simpl. lia.
Defined.

(** X16. [remove] takes a worker out of the report of running tasks although
    it leaves the worker's slot alone: after [remove],
    [get_running_task_ids] collects the slots of the remaining workers only,
    in the order they had. *)
Theorem remove_then_running_task_ids (env env1 env2 : Env) (st : Store)
    (self : WorkerRegistry.t) (worker : Worker.t) :
  let id := Worker.id worker in
  let slot := λ st worker_id,
    head (list_of st (RedisKey (settings env2) "worker_task:" +:+ worker_id)) in
  ∃ before st' cs,
    WorkerRegistry.get_worker_ids self env1 st = (Return before, st, []) ∧
    WorkerRegistry.remove self worker None env st = (Return [], st', cs) ∧
    slot st' id = slot st id ∧
    WorkerRegistry.get_running_task_ids self env2 st' =
      (Return (omap (slot st) (filter (λ x, x ≠ id) before)), st', []).
Proof.
  intros id slot. rewrite get_worker_ids_run, worker_remove_run. cbv zeta.
  fold id. eexists _, _, _. split; [done|]. split; [done|].
  set (key := WorkerRegistry.key self).
  assert (Hlists : ∀ k, list_of (put_zset key (delete id (zset_of st key)) st) k =
                        list_of st k).
  { intros k. unfold list_of.
    by rewrite (proj1 (proj2 (put_zset_frame key _ st))). }
  split; [unfold slot; by rewrite Hlists|].
  rewrite get_running_task_ids_run. fold key.
  rewrite zrange_all, zset_of_put_zset, entries_delete.
  rewrite <- (filter_fmap_fst (λ x, x ≠ id)).
  rewrite (omap_ext_all _ (slot st)); [done|].
  intros w. unfold slot. by rewrite Hlists.
Qed.

(** ** registry_maintenance *)

Lemma no_handle_dead_workers :
  resolve WorkerRegistry.methods "handle_dead_workers" 0 = raise AttributeError.
Proof. reflexivity. Qed.

(** X17. [registry_maintenance] does both sweeps before it fails, each at
    its own reading of the clock: the store it leaves is the one after
    [expire] on the finished-task registry at the first reading followed by
    [expire] on the failed-task registry at the second, the calls it made
    are those of the two sweeps, and it ends in [AttributeError].  The
    liveness registry, the lists and the sets are as they were. *)
Theorem registry_maintenance_sweeps_then_fails (second_reading : Z)
    (env : Env) (st : Store) :
  let cfg := settings env in
  let env' := {| settings := cfg; clock := second_reading |} in
  ∃ st1 cs1 st2 cs2,
    ExpiringRegistry.expire (finished_task_registry cfg) env st =
      (Return (), st1, cs1) ∧
    ExpiringRegistry.expire (failed_task_registry cfg) env' st1 =
      (Return (), st2, cs2) ∧
    registry_maintenance second_reading env st =
      (Raise AttributeError, st2, cs1 ++ cs2) ∧
    zset_of st2 (WorkerRegistry.key (worker_registry cfg)) =
      zset_of st (WorkerRegistry.key (worker_registry cfg)) ∧
    lists st2 = lists st ∧ sets st2 = sets st.
Proof.
  intros cfg env'. destruct (registry_keys_distinct cfg) as (_ & H2 & H3).
  destruct (expire_effect env st (finished_task_registry cfg))
    as (st1 & cs1 & Hexp1 & _ & _ & Hframe1 & Hs1 & Hl1).
  destruct (expire_effect env' st1 (failed_task_registry cfg))
    as (st2 & cs2 & Hexp2 & _ & _ & Hframe2 & Hs2 & Hl2).
  exists st1, cs1, st2, cs2. split; [done|]. split; [done|]. split.
  - unfold registry_maintenance, mbind, Redis_bind, get_settings, at_clock.
    fold cfg. rewrite Hexp1. fold env'. rewrite Hexp2, no_handle_dead_workers.
    unfold raise. by rewrite app_nil_r.
  - split; [|split; congruence].
    rewrite Hframe2 by by apply not_eq_sym. apply Hframe1. by apply not_eq_sym.
Qed.

(** With the clock at 160 for the first sweep and at 161 for the second
    (TTL 60): the finished task written at 100 and the failed task written
    at 101 are both swept. *)
Example registry_maintenance_two_readings :
  let st := {| zsets := {[ "rq:finished_tasks" := {[ "tx" := 100 ]};
                           "rq:failed_tasks" := {[ "tf" := 101 ]} ]};
               sets := ∅; lists := ∅; tasks := ∅ |} in
  let r := registry_maintenance 161 (at_time 160) st in
  r.1.1 = Raise AttributeError ∧
  zset_of r.1.2 "rq:finished_tasks" !! "tx" = None ∧
  zset_of r.1.2 "rq:failed_tasks" !! "tf" = None ∧
  zset_of (registry_maintenance 160 (at_time 160) st).1.2 "rq:failed_tasks" !! "tf" =
    Some 101.
Proof. by vm_compute. Qed.

(** ** QueueRegistry: add and remove seen through get_names *)

Lemma set_of_put_set_ne (key key' : string) (s : gset string) (st : Store) :
  key ≠ key' → set_of (put_set key s st) key' = set_of st key'.
Proof.
  intros Hne. unfold put_set. case_decide as Hsame; [done|].
  unfold set_of. simpl. case_decide.
  - by rewrite lookup_delete_ne.
  - by rewrite lookup_insert_ne.
Qed.

(** X18. After [QueueRegistry.add] the names [get_names] returns are the
    ones from before and the queue's name, each once, in ascending
    lexicographic order; sorted sets, lists and task records are untouched. *)
Theorem queue_add_then_get_names (env env' : Env) (st : Store)
    (self : QueueRegistry.t) (queue : Queue.t) :
  let key := QueueRegistry.key self in
  ∃ st' names,
    QueueRegistry.add self queue None env st =
      (Return [], st', [SADD key (Queue.name queue)]) ∧
    QueueRegistry.get_names self env' st' = (Return names, st', []) ∧
    (∀ n, n ∈ names ↔ n = Queue.name queue ∨ n ∈ set_of st key) ∧
    NoDup names ∧ StronglySorted String.le names ∧
    zsets st' = zsets st ∧ lists st' = lists st ∧ tasks st' = tasks st.
Proof.
  intros key. rewrite queue_add_run. fold key. eexists _, _. split; [done|].
  rewrite get_names_run. fold key. rewrite set_of_put_set. split; [done|].
  split.
  { intros n. rewrite merge_sort_Permutation, elem_of_elements.
    by rewrite elem_of_union, elem_of_singleton. }
  split; [rewrite merge_sort_Permutation; apply NoDup_elements|].
  split; [apply (StronglySorted_merge_sort _)|]. apply put_set_frame.
Qed.

(** X19. After [QueueRegistry.remove] the names [get_names] returns are the
    ones from before without the queue's name, in ascending lexicographic
    order; removing a name that is not registered returns without error and
    changes nothing. *)
Theorem queue_remove_then_get_names (env env' : Env) (st : Store)
    (self : QueueRegistry.t) (queue : Queue.t) :
  let key := QueueRegistry.key self in
  ∃ st' names,
    QueueRegistry.remove self queue None env st =
      (Return [], st', [SREM key (Queue.name queue)]) ∧
    QueueRegistry.get_names self env' st' = (Return names, st', []) ∧
    (∀ n, n ∈ names ↔ n ≠ Queue.name queue ∧ n ∈ set_of st key) ∧
    NoDup names ∧ StronglySorted String.le names ∧
    (Queue.name queue ∉ set_of st key → st' = st) ∧
    zsets st' = zsets st ∧ lists st' = lists st ∧ tasks st' = tasks st.
Proof.
  intros key. rewrite queue_remove_run. fold key. eexists _, _. split; [done|].
  rewrite get_names_run. fold key. rewrite set_of_put_set. split; [done|].
  split.
  { intros n. rewrite merge_sort_Permutation, elem_of_elements.
    rewrite elem_of_difference, elem_of_singleton. tauto. }
  split; [rewrite merge_sort_Permutation; apply NoDup_elements|].
  split; [apply (StronglySorted_merge_sort _)|].
  split; [|apply put_set_frame].
  intros Hnotin.
  assert (set_of st key ∖ {[Queue.name queue]} = set_of st key) as ->.
  { apply set_eq. intros n. rewrite elem_of_difference, elem_of_singleton.
    split; [tauto|]. intros Hn. split; [done|]. by intros ->. }
  apply put_set_same.
Qed.

(** X20. Registering a queue that was not registered and removing it again
    brings every set of the store back to what it held, so [get_names]
    returns what it returned before; sorted sets, lists and task records are
    untouched. *)
Theorem queue_add_then_remove (env1 env2 env env' : Env) (st : Store)
    (self : QueueRegistry.t) (queue : Queue.t) :
  Queue.name queue ∉ set_of st (QueueRegistry.key self) →
  ∃ st1 cs1 st2 cs2 names,
    QueueRegistry.add self queue None env1 st = (Return [], st1, cs1) ∧
    QueueRegistry.remove self queue None env2 st1 = (Return [], st2, cs2) ∧
    (∀ key, set_of st2 key = set_of st key) ∧
    QueueRegistry.get_names self env st = (Return names, st, []) ∧
    QueueRegistry.get_names self env' st2 = (Return names, st2, []) ∧
    zsets st2 = zsets st ∧ lists st2 = lists st ∧ tasks st2 = tasks st.
Proof.
  intros Hnotin. set (key := QueueRegistry.key self) in *.
  rewrite queue_add_run. fold key. eexists _, _.
  rewrite queue_remove_run. fold key. eexists _, _, _.
  split; [done|]. split; [done|]. rewrite set_of_put_set.
  assert (Hback : ({[Queue.name queue]} ∪ set_of st key) ∖ {[Queue.name queue]} =
                  set_of st key).
  { apply set_eq. intros n.
    rewrite elem_of_difference, elem_of_union, elem_of_singleton.
    split; [tauto|]. intros Hn. split; [by right|]. by intros ->. }
  rewrite Hback.
  assert (Hsets : ∀ k, set_of (put_set key (set_of st key)
                     (put_set key ({[Queue.name queue]} ∪ set_of st key) st)) k =
                   set_of st k).
  { intros k. destruct (decide (key = k)) as [<-|Hne].
    - by rewrite set_of_put_set.
    - by rewrite !set_of_put_set_ne. }
  split; [done|]. rewrite !get_names_run. fold key. split; [done|].
  split; [by rewrite Hsets|].
  destruct (put_set_frame key (set_of st key)
    (put_set key ({[Queue.name queue]} ∪ set_of st key) st)) as (-> & -> & ->).
  apply put_set_frame.
Qed.

Lemma queue_add_then_remove_witness :
  ∃ st1 cs1 st2 cs2 names,
    QueueRegistry.add (queue_registry sample_settings) {| Queue.name := "low" |}
      None (at_time 1) sample_store = (Return [], st1, cs1) ∧
    QueueRegistry.remove (queue_registry sample_settings) {| Queue.name := "low" |}
      None (at_time 2) st1 = (Return [], st2, cs2) ∧
    (∀ key, set_of st2 key = set_of sample_store key) ∧
    QueueRegistry.get_names (queue_registry sample_settings) (at_time 0)
      sample_store = (Return names, sample_store, []) ∧
    QueueRegistry.get_names (queue_registry sample_settings) (at_time 3) st2 =
      (Return names, st2, []) ∧
    zsets st2 = zsets sample_store ∧ lists st2 = lists sample_store ∧
    tasks st2 = tasks sample_store.
Proof.
  apply (queue_add_then_remove (at_time 1) (at_time 2) (at_time 0) (at_time 3)
           sample_store (queue_registry sample_settings) {| Queue.name := "low" |}).
  apply (bool_decide_unpack _). by vm_compute.
Defined.

(** ** Registry methods on a caller's batch *)

(** X21. Called with a caller's batch, [WorkerRegistry.remove] and
    [ExpiringRegistry.add] write nothing and issue nothing: each appends its
    one command to the batch, [add] with the score read when it was called.
    Executing the batch then leaves the store the two calls leave when each
    runs with a batch of its own, in that order. *)
Theorem batch_remove_then_add (env : Env) (st : Store)
    (workers : WorkerRegistry.t) (registry : ExpiringRegistry.t)
    (worker : Worker.t) (task : Task.t) :
  let batch := [ZREM (WorkerRegistry.key workers) (Worker.id worker);
                ZADD (ExpiringRegistry.key registry) (Task.id task)
                  (clock env) false false] in
  ∃ p1 st1 cs1 st2 cs2,
    WorkerRegistry.remove workers worker (Some []) env st = (Return p1, st, []) ∧
    ExpiringRegistry.add registry task (Some p1) env st = (Return batch, st, []) ∧
    WorkerRegistry.remove workers worker None env st = (Return [], st1, cs1) ∧
    ExpiringRegistry.add registry task None env st1 = (Return [], st2, cs2) ∧
    execute batch env st = (Return (), st2, batch).
Proof.
  intros batch. rewrite worker_remove_run. cbv zeta. eexists _, _, _.
  rewrite expiring_add_run. cbv zeta. eexists _, _.
  split; [reflexivity|]. split; [reflexivity|]. split; [done|]. split; [done|].
  unfold batch, execute, for_each, mbind, Redis_bind, issue, perform, mret,
    Redis_ret.
  rewrite <- (zrem_delete (Worker.id worker)).
  destruct (ZSet.zrem (Worker.id worker) (zset_of st (WorkerRegistry.key workers)))
    as [z1 n1]. cbn [fst].
  set (st1 := put_zset (WorkerRegistry.key workers) z1 st).
  rewrite <- (zadd_upsert (Task.id task) (clock env) false
                (zset_of st1 (ExpiringRegistry.key registry))).
  by destruct (ZSet.zadd (Task.id task) (clock env) false false
                 (zset_of st1 (ExpiringRegistry.key registry))).
Qed.

(** * The command-line tool *)

(** ** [path.split(':')] and [sys.path] *)

Lemma split_not_nil (sep : Ascii.ascii) (s : string) : cli.split sep s ≠ [].
Proof.
  destruct s as [|a s]; simpl; [done|].
  case_decide; [done|]. by destruct (cli.split sep s).
Qed.

Lemma join_split (sep : Ascii.ascii) (s : string) :
  cli.join sep (cli.split sep s) = s.
Proof.
  induction s as [|a s IH]; [done|]. simpl.
  pose proof (split_not_nil sep s) as Hne.
  destruct (cli.split sep s) as [|h t] eqn:Hs; [done|].
  case_decide as Ha.
  - subst a. change (cli.join sep (EmptyString :: h :: t))
      with (String sep (cli.join sep (h :: t))). by rewrite IH.
  - destruct t as [|h' t].
    + simpl in *. by rewrite IH.
    + change (cli.join sep (String a h :: h' :: t))
        with (String a (h +:+ String sep (cli.join sep (h' :: t)))).
      f_equal. exact IH.
Qed.

Lemma split_components (sep : Ascii.ascii) (s : string) :
  Forall (λ c, cli.contains sep c = false) (cli.split sep s).
Proof.
  induction s as [|a s IH]; simpl; [by repeat constructor|].
  case_decide as Ha; [by constructor|].
  pose proof (split_not_nil sep s) as Hne.
  destruct (cli.split sep s) as [|h t]; [done|].
  apply Forall_cons in IH as [Hh Ht]. constructor; [|done].
  simpl. by rewrite bool_decide_eq_false_2, Hh.
Qed.

(** X22. The update of [sys.path] in [info] and [worker]: an empty [path]
    leaves [sys.path] as it is; any other [path] puts its components in
    front of the old [sys.path], in order.  The components are never none,
    none of them contains a colon, and joined with colons they give [path]
    back. *)
Theorem extend_sys_path_components (path : string) (sys_path : list string) :
  ∃ added,
    cli.extend_sys_path path sys_path = added ++ sys_path ∧
    (added = [] ↔ path = EmptyString) ∧
    Forall (λ c, cli.contains ":" c = false) added ∧
    cli.join ":" added = path.
Proof.
  unfold cli.extend_sys_path. case_decide as Hp.
  - exists []. subst. by repeat split.
  - exists (cli.split ":" path). split; [done|]. split; [|split].
    + split; [intros Hnil; by apply split_not_nil in Hnil|done].
    + apply split_components.
    + apply join_split.
Qed.

Example extend_sys_path_sample :
  cli.extend_sys_path "src:/opt/lib" ["/usr/lib"] = ["src"; "/opt/lib"; "/usr/lib"] ∧
  cli.extend_sys_path "." ["/usr/lib"] = ["."; "/usr/lib"] ∧
  cli.extend_sys_path "a::b" [] = ["a"; ""; "b"].
Proof. by vm_compute. Qed.

(** ** How the commands are called *)

(** X23. The keywords [pass_cli_config] hands to a command are the names of
    its options and arguments and of the shared options.  For [empty] and
    [info] they fill every parameter, and the commands run.  [worker] has
    the parameter [results_ttl], which is the name of none of its options:
    the call raises [TypeError] and the body of [worker] never runs, so the
    process is left as it was. *)
Theorem commands_called_with_their_options :
  cli.missing cli.worker_signature 1
    (cli.param_name <$> (cli.worker_params ++ cli.shared_options)) =
    ["results_ttl"] ∧
  (∀ (World : Type) (worker : @cli.Command World) (p : cli.Process),
     cli.worker_command worker p = (cli.Raised cli.TypeError, p)) ∧
  (∀ (World Queue : Type) all_queues queue_class queue_name queue_empty
       all queues (p : cli.Process),
     @cli.empty_command World Queue all_queues queue_class queue_name queue_empty
       all queues p =
     cli.empty all_queues queue_class queue_name queue_empty all queues p) ∧
  (∀ (World View : Type) show_queues show_workers show_both refresh
       path interval raw only_queues only_workers by_queue queues
       (p : cli.Process),
     @cli.info_command World View show_queues show_workers show_both refresh
       path interval raw only_queues only_workers by_queue queues p =
     cli.info show_queues show_workers show_both refresh
       path interval raw only_queues only_workers by_queue queues p).
Proof. split; [by vm_compute|]. split; [|split]; intros; reflexivity. Qed.

(** ** The commands [empty] and [info] *)

Section cli_commands.
Context {World Queue View : Type}.
Variable queue_class_all : World → list Queue.
Variable queue_class : string → Queue.
Variable queue_name : Queue → string.
Variable queue_empty : Queue → World → Z * World.
Variable show_queues show_workers show_both : View.
Variable refresh :
  option Z → View → list string → bool → bool → World →
  cli.result unit * World * list string.

Lemma empty_each_lines (queues : list Queue) (p : cli.Process) :
  ∃ lines,
    cli.stdout (cli.empty_each queue_name queue_empty queues p) =
      cli.stdout p ++ lines ∧
    cli.sys_path (cli.empty_each queue_name queue_empty queues p) =
      cli.sys_path p ∧
    Forall2 (λ queue line, ∃ num_tasks : Z,
       line = pretty num_tasks +:+ " tasks removed from " +:+
              queue_name queue +:+ " queue") queues lines.
Proof.
  revert p. induction queues as [|queue queues IH]; intros p; simpl.
  - exists []. by rewrite app_nil_r.
  - destruct (queue_empty queue (cli.world p)) as [num_tasks w].
    destruct (IH (cli.echo
      (pretty num_tasks +:+ " tasks removed from " +:+ queue_name queue +:+ " queue")
      {| cli.world := w; cli.sys_path := cli.sys_path p;
         cli.stdout := cli.stdout p |})) as (lines & Hout & Hpath & Hall).
    eexists (_ :: lines). rewrite Hout, Hpath. simpl. rewrite <- app_assoc.
    split; [done|]. split; [done|]. constructor; [by exists num_tasks|done].
Qed.

(** X24. [empty] only adds lines to the output and leaves [sys.path] alone.
    With no queue selected (no name given and no [--all], or [--all] with no
    queue known) it prints [Nothing to do], empties nothing and exits with
    status 0.  Otherwise it returns and has printed one line per selected
    queue, in order, each saying how many tasks were removed from the queue
    of that name.  With [--all] the names given are ignored. *)
Theorem empty_output (all : bool) (names : list string) (p : cli.Process) :
  let selected :=
    if all then queue_class_all (cli.world p) else queue_class <$> names in
  ∃ r p' lines,
    cli.empty queue_class_all queue_class queue_name queue_empty all names p =
      (r, p') ∧
    cli.stdout p' = cli.stdout p ++ lines ∧
    cli.sys_path p' = cli.sys_path p ∧
    (selected = [] →
       r = cli.Raised (cli.SystemExit 0) ∧ lines = ["Nothing to do"] ∧
       cli.world p' = cli.world p) ∧
    (selected ≠ [] →
       r = cli.Done () ∧
       Forall2 (λ queue line, ∃ num_tasks : Z,
                line = pretty num_tasks +:+ " tasks removed from " +:+
                       queue_name queue +:+ " queue") selected lines) ∧
    (all = true →
       cli.empty queue_class_all queue_class queue_name queue_empty all names p =
       cli.empty queue_class_all queue_class queue_name queue_empty all [] p).
Proof.
  cbv zeta. unfold cli.empty.
  destruct (if all then queue_class_all (cli.world p) else queue_class <$> names)
    as [|queue queues] eqn:Hsel.
  - eexists _, _, _. split; [done|]. split; [done|]. split; [done|].
    split; [done|]. split; [done|]. intros ->. simpl in *. by rewrite Hsel.
  - destruct (empty_each_lines (queue :: queues) p) as (lines & Hout & Hpath & Hall).
    eexists _, _, lines. split; [done|]. split; [done|]. split; [done|].
    split; [done|]. split; [done|]. intros ->. simpl in *. by rewrite Hsel.
Qed.

(** X25. [info] extends [sys.path] first, whatever happens after.  A
    [ConnectionError] or [KeyboardInterrupt] of the monitor never escapes:
    the first becomes exit status 1 after its message is printed, the second
    exit status 0 after an empty line.  With [--only-queues] the flag
    [--only-workers] has no effect. *)
Theorem info_outcome (path : string) (interval : option Z)
    (raw only_queues only_workers by_queue : bool) (queues : list string)
    (p : cli.Process) :
  let view :=
    if only_queues then show_queues
    else if only_workers then show_workers else show_both in
  let run := cli.info show_queues show_workers show_both refresh
               path interval raw in
  ∃ r0 w lines r p',
    refresh interval view queues raw by_queue (cli.world p) = (r0, w, lines) ∧
    run only_queues only_workers by_queue queues p = (r, p') ∧
    cli.sys_path p' = cli.extend_sys_path path (cli.sys_path p) ∧
    cli.world p' = w ∧
    (r0 = cli.Done () → r = cli.Done () ∧ cli.stdout p' = cli.stdout p ++ lines) ∧
    (∀ message, r0 = cli.Raised (cli.ConnectionError message) →
       r = cli.Raised (cli.SystemExit 1) ∧
       cli.stdout p' = cli.stdout p ++ lines ++ [message]) ∧
    (r0 = cli.Raised cli.KeyboardInterrupt →
       r = cli.Raised (cli.SystemExit 0) ∧
       cli.stdout p' = cli.stdout p ++ lines ++ [EmptyString]) ∧
    (∀ message, r ≠ cli.Raised (cli.ConnectionError message)) ∧
    r ≠ cli.Raised cli.KeyboardInterrupt ∧
    (only_queues = true →
       run true only_workers by_queue queues p =
       run true (negb only_workers) by_queue queues p).
Proof.
  intros view run. unfold run, cli.info. cbn [cli.world cli.sys_path cli.stdout].
  fold view.
  destruct (refresh interval view queues raw by_queue (cli.world p))
    as [[r0 w] lines] eqn:Href.
  exists r0, w, lines.
  destruct r0 as [[]|[|message| |code]]; eexists _, _;
    (split; [done|]); (split; [done|]); (split; [done|]); (split; [done|]);
    cbn [cli.echo cli.stdout];
    repeat split; try done; try (intros; simplify_eq; by rewrite ?app_assoc);
    intros ->; unfold view in Href; simpl in Href; by rewrite ?Href.
Qed.

End cli_commands.
